(** * PortalFinder: account-portal detection over a list of hosts

    A shallow embedding of [portalfinder.go].  The repository holds two
    variants of the program in one file: the first (lines 1-257) keeps the
    matched hosts in memory and classifies links with a regular expression,
    the second (lines 258-486) appends matched hosts to the output file and
    classifies with plain substring tests.  Both share the probing loop of
    [checkSubdomain] and the goroutine structure of [main].

    Go strings are byte sequences; they are modelled as [string] (a list of
    8-bit [ascii] values).  The network ([httpClient.Get]) is a parameter,
    and a file is its content.  Of the terminal output ([fmt.Printf]) only
    the lines of the progress display are modelled. *)

From Stdlib Require Import ZArith List Bool Lia Sorting.Permutation.
From Stdlib Require Import Strings.String Strings.Ascii Numbers.DecimalString.
Import ListNotations.
Open Scope string_scope.

(** ** UTF-8 and case mapping, as Go's [unicode/utf8] and [unicode] have them

    [strings.ToLower] works on the code points of a string and not on its
    bytes.  A code point (a [rune]) is an integer. *)

Module UTF8.

Definition RuneError : Z := 65533.    (* U+FFFD *)
Definition RuneSelf : Z := 128.
Definition MaxRune : Z := 1114111.    (* U+10FFFF *)

Definition byte (c : ascii) : Z := Z.of_nat (nat_of_ascii c).
Definition char (b : Z) : ascii := ascii_of_nat (Z.to_nat b).

(** The number of bytes of the encoding that starts with the byte [b0]:
    one for ASCII, none for a byte that starts no encoding (0x80-0xC1 and
    0xF5-0xFF). *)
Definition width (b0 : Z) : nat :=
  if (b0 <? 128)%Z then 1
  else if (b0 <? 194)%Z then 0
  else if (b0 <? 224)%Z then 2
  else if (b0 <? 240)%Z then 3
  else if (b0 <? 245)%Z then 4
  else 0.

(** The range accepted for the second byte: 0x80-0xBF, narrowed after
    0xE0 (no overlong form), 0xED (no surrogate), 0xF0 (no overlong form)
    and 0xF4 (nothing beyond U+10FFFF). *)
Definition acceptSecond (b0 b1 : Z) : bool :=
  if (b0 =? 224)%Z then (160 <=? b1)%Z && (b1 <=? 191)%Z
  else if (b0 =? 237)%Z then (128 <=? b1)%Z && (b1 <=? 159)%Z
  else if (b0 =? 240)%Z then (144 <=? b1)%Z && (b1 <=? 191)%Z
  else if (b0 =? 244)%Z then (128 <=? b1)%Z && (b1 <=? 143)%Z
  else (128 <=? b1)%Z && (b1 <=? 191)%Z.

(** A continuation byte, 0x80-0xBF. *)
Definition continuation (b : Z) : bool := (128 <=? b)%Z && (b <=? 191)%Z.

Definition rune2 (b0 b1 : Z) : Z :=
  Z.lor (Z.shiftl (Z.land b0 31) 6) (Z.land b1 63).

Definition rune3 (b0 b1 b2 : Z) : Z :=
  Z.lor (Z.shiftl (Z.land b0 15) 12)
    (Z.lor (Z.shiftl (Z.land b1 63) 6) (Z.land b2 63)).

Definition rune4 (b0 b1 b2 b3 : Z) : Z :=
  Z.lor (Z.shiftl (Z.land b0 7) 18)
    (Z.lor (Z.shiftl (Z.land b1 63) 12)
       (Z.lor (Z.shiftl (Z.land b2 63) 6) (Z.land b3 63))).

(** [utf8.DecodeRuneInString]: the first code point of [s] and what
    follows it in [s].  A first byte that starts no valid encoding is read
    as [RuneError], one byte wide; so is the end of the string. *)
Definition DecodeRuneInString (s : string) : Z * string :=
  match s with
  | EmptyString => (RuneError, EmptyString)
  | String c0 s1 =>
      let b0 := byte c0 in
      if (b0 <? RuneSelf)%Z then (b0, s1)
      else
        match width b0, s1 with
        | 2, String c1 s2 =>
            let b1 := byte c1 in
            if acceptSecond b0 b1 then (rune2 b0 b1, s2)
            else (RuneError, s1)
        | 3, String c1 (String c2 s3) =>
            let b1 := byte c1 in
            let b2 := byte c2 in
            if acceptSecond b0 b1 && continuation b2
            then (rune3 b0 b1 b2, s3)
            else (RuneError, s1)
        | 4, String c1 (String c2 (String c3 s4)) =>
            let b1 := byte c1 in
            let b2 := byte c2 in
            let b3 := byte c3 in
            if acceptSecond b0 b1 && continuation b2 && continuation b3
            then (rune4 b0 b1 b2 b3, s4)
            else (RuneError, s1)
        | _, _ => (RuneError, s1)
        end
  end.

(** [utf8.EncodeRune]: a rune out of range or in the surrogate range is
    encoded as [RuneError]. *)
Definition EncodeRune (r : Z) : string :=
  let tail (bits : Z) := char (Z.lor 128 (Z.land (Z.shiftr r bits) 63)) in
  if (r <? 0)%Z then String (char 239) (String (char 191) (String (char 189) ""))
  else if (r <? 128)%Z then String (char r) ""
  else if (r <? 2048)%Z then
    String (char (Z.lor 192 (Z.shiftr r 6))) (String (tail 0%Z) "")
  else if (MaxRune <? r)%Z || ((55296 <=? r)%Z && (r <=? 57343)%Z) then
    String (char 239) (String (char 191) (String (char 189) ""))
  else if (r <? 65536)%Z then
    String (char (Z.lor 224 (Z.shiftr r 12)))
      (String (tail 6%Z) (String (tail 0%Z) ""))
  else
    String (char (Z.lor 240 (Z.shiftr r 18)))
      (String (tail 12%Z) (String (tail 6%Z) (String (tail 0%Z) ""))).

End UTF8.

Module Unicode.

Local Open Scope Z_scope.

(** The lower-case mappings of the code points from U+0080 on, as the
    table [unicode.CaseRanges] gives them: the simple lower-case mappings
    of the Unicode Character Database, here those of version 14.0, which
    version 15.0 (Go 1.21) leaves as they are.  An entry
    [(lo, hi, stride, delta)] maps every [stride]-th code point from [lo]
    to [hi] to itself plus [delta]; a code point in no entry is mapped to
    itself.  Two of them have an ASCII letter as their lower case:
    U+0130 (to [i]) and U+212A (to [k]). *)
Definition caseRanges : list (Z * Z * Z * Z) :=
  [ (192, 214, 1, 32); (216, 222, 1, 32); (256, 302, 2, 1);
    (304, 304, 1, -199); (306, 310, 2, 1); (313, 327, 2, 1);
    (330, 374, 2, 1); (376, 376, 1, -121); (377, 381, 2, 1);
    (385, 385, 1, 210); (386, 388, 2, 1); (390, 390, 1, 206);
    (391, 391, 1, 1); (393, 394, 1, 205); (395, 395, 1, 1);
    (398, 398, 1, 79); (399, 399, 1, 202); (400, 400, 1, 203);
    (401, 401, 1, 1); (403, 403, 1, 205); (404, 404, 1, 207);
    (406, 406, 1, 211); (407, 407, 1, 209); (408, 408, 1, 1);
    (412, 412, 1, 211); (413, 413, 1, 213); (415, 415, 1, 214);
    (416, 420, 2, 1); (422, 422, 1, 218); (423, 423, 1, 1);
    (425, 425, 1, 218); (428, 428, 1, 1); (430, 430, 1, 218);
    (431, 431, 1, 1); (433, 434, 1, 217); (435, 437, 2, 1);
    (439, 439, 1, 219); (440, 440, 1, 1); (444, 444, 1, 1); (452, 452, 1, 2);
    (453, 453, 1, 1); (455, 455, 1, 2); (456, 456, 1, 1); (458, 458, 1, 2);
    (459, 475, 2, 1); (478, 494, 2, 1); (497, 497, 1, 2); (498, 500, 2, 1);
    (502, 502, 1, -97); (503, 503, 1, -56); (504, 542, 2, 1);
    (544, 544, 1, -130); (546, 562, 2, 1); (570, 570, 1, 10795);
    (571, 571, 1, 1); (573, 573, 1, -163); (574, 574, 1, 10792);
    (577, 577, 1, 1); (579, 579, 1, -195); (580, 580, 1, 69);
    (581, 581, 1, 71); (582, 590, 2, 1); (880, 882, 2, 1); (886, 886, 1, 1);
    (895, 895, 1, 116); (902, 902, 1, 38); (904, 906, 1, 37);
    (908, 908, 1, 64); (910, 911, 1, 63); (913, 929, 1, 32);
    (931, 939, 1, 32); (975, 975, 1, 8); (984, 1006, 2, 1);
    (1012, 1012, 1, -60); (1015, 1015, 1, 1); (1017, 1017, 1, -7);
    (1018, 1018, 1, 1); (1021, 1023, 1, -130); (1024, 1039, 1, 80);
    (1040, 1071, 1, 32); (1120, 1152, 2, 1); (1162, 1214, 2, 1);
    (1216, 1216, 1, 15); (1217, 1229, 2, 1); (1232, 1326, 2, 1);
    (1329, 1366, 1, 48); (4256, 4293, 1, 7264); (4295, 4295, 1, 7264);
    (4301, 4301, 1, 7264); (5024, 5103, 1, 38864); (5104, 5109, 1, 8);
    (7312, 7354, 1, -3008); (7357, 7359, 1, -3008); (7680, 7828, 2, 1);
    (7838, 7838, 1, -7615); (7840, 7934, 2, 1); (7944, 7951, 1, -8);
    (7960, 7965, 1, -8); (7976, 7983, 1, -8); (7992, 7999, 1, -8);
    (8008, 8013, 1, -8); (8025, 8031, 2, -8); (8040, 8047, 1, -8);
    (8072, 8079, 1, -8); (8088, 8095, 1, -8); (8104, 8111, 1, -8);
    (8120, 8121, 1, -8); (8122, 8123, 1, -74); (8124, 8124, 1, -9);
    (8136, 8139, 1, -86); (8140, 8140, 1, -9); (8152, 8153, 1, -8);
    (8154, 8155, 1, -100); (8168, 8169, 1, -8); (8170, 8171, 1, -112);
    (8172, 8172, 1, -7); (8184, 8185, 1, -128); (8186, 8187, 1, -126);
    (8188, 8188, 1, -9); (8486, 8486, 1, -7517); (8490, 8490, 1, -8383);
    (8491, 8491, 1, -8262); (8498, 8498, 1, 28); (8544, 8559, 1, 16);
    (8579, 8579, 1, 1); (9398, 9423, 1, 26); (11264, 11311, 1, 48);
    (11360, 11360, 1, 1); (11362, 11362, 1, -10743);
    (11363, 11363, 1, -3814); (11364, 11364, 1, -10727);
    (11367, 11371, 2, 1); (11373, 11373, 1, -10780);
    (11374, 11374, 1, -10749); (11375, 11375, 1, -10783);
    (11376, 11376, 1, -10782); (11378, 11378, 1, 1); (11381, 11381, 1, 1);
    (11390, 11391, 1, -10815); (11392, 11490, 2, 1); (11499, 11501, 2, 1);
    (11506, 11506, 1, 1); (42560, 42604, 2, 1); (42624, 42650, 2, 1);
    (42786, 42798, 2, 1); (42802, 42862, 2, 1); (42873, 42875, 2, 1);
    (42877, 42877, 1, -35332); (42878, 42886, 2, 1); (42891, 42891, 1, 1);
    (42893, 42893, 1, -42280); (42896, 42898, 2, 1); (42902, 42920, 2, 1);
    (42922, 42922, 1, -42308); (42923, 42923, 1, -42319);
    (42924, 42924, 1, -42315); (42925, 42925, 1, -42305);
    (42926, 42926, 1, -42308); (42928, 42928, 1, -42258);
    (42929, 42929, 1, -42282); (42930, 42930, 1, -42261);
    (42931, 42931, 1, 928); (42932, 42946, 2, 1); (42948, 42948, 1, -48);
    (42949, 42949, 1, -42307); (42950, 42950, 1, -35384);
    (42951, 42953, 2, 1); (42960, 42960, 1, 1); (42966, 42968, 2, 1);
    (42997, 42997, 1, 1); (65313, 65338, 1, 32); (66560, 66599, 1, 40);
    (66736, 66771, 1, 40); (66928, 66938, 1, 39); (66940, 66954, 1, 39);
    (66956, 66962, 1, 39); (66964, 66965, 1, 39); (68736, 68786, 1, 64);
    (71840, 71871, 1, 32); (93760, 93791, 1, 32); (125184, 125217, 1, 34) ].

Fixpoint lookup (ranges : list (Z * Z * Z * Z)) (r : Z) : Z :=
  match ranges with
  | [] => r
  | (lo, hi, stride, delta) :: rest =>
      if (lo <=? r)%Z && (r <=? hi)%Z && (Z.rem (r - lo) stride =? 0)%Z
      then (r + delta)%Z
      else lookup rest r
  end.

(** [unicode.ToLower(r)]. *)
Definition ToLower (r : Z) : Z :=
  if (r <=? 127)%Z then
    if (65 <=? r)%Z && (r <=? 90)%Z then (r + 32)%Z else r
  else lookup caseRanges r.

End Unicode.

(** ** The parts of Go's [strings] and [fmt] packages that the program uses *)

Module GoStrings.

(** [len(s)] as a Go [int]. *)
Definition len (s : string) : Z := Z.of_nat (String.length s).

(** [strings.HasPrefix(s, prefix)]. *)
Fixpoint HasPrefix (s prefix : string) {struct prefix} : bool :=
  match prefix with
  | EmptyString => true
  | String p prefix' =>
      match s with
      | EmptyString => false
      | String c s' => Ascii.eqb c p && HasPrefix s' prefix'
      end
  end.

(** [strings.Contains(s, substr)]: some suffix of [s] starts with
    [substr]. *)
Fixpoint Contains (s substr : string) : bool :=
  HasPrefix s substr ||
  match s with
  | EmptyString => false
  | String _ s' => Contains s' substr
  end.

(** [strings.Map(mapping, s)], the loop over the code points of [s]:
    each is replaced by the encoding of its image.  The loop runs at most
    once for each byte. *)
Fixpoint mapRunes (mapping : Z -> Z) (fuel : nat) (s : string) : string :=
  match fuel, s with
  | S fuel', String _ _ =>
      let (r, rest) := UTF8.DecodeRuneInString s in
      UTF8.EncodeRune (mapping r) ++ mapRunes mapping fuel' rest
  | _, _ => EmptyString
  end.

(** [strings.ToLower(s)]: the string is read as UTF-8, code point by code
    point, and every code point is replaced by the encoding of its lower
    case.  A byte that is not part of a valid encoding is read as
    [RuneError] and so is replaced by the three bytes of U+FFFD. *)
Definition ToLower (s : string) : string :=
  mapRunes Unicode.ToLower (String.length s) s.

(** [fmt.Sprint(n)] for an [int]: the decimal digits, with a leading
    minus sign for a negative number. *)
Definition Sprint (n : Z) : string := NilEmpty.string_of_int (Z.to_int n).

(** The double quote and the line feed, which a literal cannot hold. *)
Definition dquote : ascii := ascii_of_nat 34.
Definition newline : ascii := ascii_of_nat 10.

(** The one-byte string that holds the double quote. *)
Definition dq : string := String dquote EmptyString.

End GoStrings.

(** ** Go's [regexp] package, for the patterns of the program

    Go's matcher returns the leftmost match and, among the matches that
    start there, the one a backtracking search finds first.  The patterns
    of the program are alternations of sequences of literal bytes, starred
    character classes (greedy [c*] or lazy [c*?]) and capture groups, so
    the syntax is restricted to those.  Classes are predicates on bytes:
    the classes used (any byte but [>], any byte but the double quote, and
    any byte but the line feed) exclude one ASCII byte, so
    matching byte by byte agrees with Go's matching rune by rune. *)

Module Regexp.

Inductive node : Type :=
| Char (c : ascii)
| Star (cls : ascii -> bool)
| StarLazy (cls : ascii -> bool)
| Open (g : nat)
| Close (g : nat).

Definition seq : Type := list node.
Definition regex : Type := list seq.

(** A capture table maps a group number to a string: for an open group
    the input that was left when the group opened, for a closed group
    the text it captured. *)
Definition table : Type := list (nat * string).

Fixpoint lookup (g : nat) (t : table) : option string :=
  match t with
  | [] => None
  | (g', s) :: t' => if Nat.eqb g g' then Some s else lookup g t'
  end.

Fixpoint lit (s : string) : seq :=
  match s with
  | EmptyString => []
  | String c s' => Char c :: lit s'
  end.

(** [take n s]: the first [n] bytes of [s]. *)
Fixpoint take (n : nat) (s : string) : string :=
  match n, s with
  | S n', String c s' => String c (take n' s')
  | _, _ => EmptyString
  end.

(** The two starred classes, over the match [k] of what follows them.
    The greedy star first tries to take one more byte and falls back to
    [k]; the lazy star first tries [k] and only then takes a byte. *)
Fixpoint starGreedy {R : Type} (cls : ascii -> bool)
    (k : string -> option R) (s : string) : option R :=
  match s with
  | String c s' =>
      if cls c then
        match starGreedy cls k s' with
        | Some r => Some r
        | None => k s
        end
      else k s
  | EmptyString => k s
  end.

Fixpoint starLazy {R : Type} (cls : ascii -> bool)
    (k : string -> option R) (s : string) : option R :=
  match k s with
  | Some r => Some r
  | None =>
      match s with
      | String c s' => if cls c then starLazy cls k s' else None
      | EmptyString => None
      end
  end.

(** Backtracking match of a sequence at the start of [s]: the input left
    after the match and the captures of the first successful path. *)
Fixpoint run (re : seq) (s : string) (opens caps : table)
  : option (string * table) :=
  match re with
  | [] => Some (s, caps)
  | Char c :: re' =>
      match s with
      | String c' s' => if Ascii.eqb c c' then run re' s' opens caps else None
      | EmptyString => None
      end
  | Star cls :: re' => starGreedy cls (fun s' => run re' s' opens caps) s
  | StarLazy cls :: re' => starLazy cls (fun s' => run re' s' opens caps) s
  | Open g :: re' => run re' s ((g, s) :: opens) caps
  | Close g :: re' =>
      match lookup g opens with
      | Some s0 =>
          run re' s opens
            ((g, take (String.length s0 - String.length s) s0) :: caps)
      | None => None
      end
  end.

(** Alternation: the first alternative that matches at the start of [s]. *)
Fixpoint matchAt (r : regex) (s : string) : option (string * table) :=
  match r with
  | [] => None
  | alt :: r' =>
      match run alt s [] [] with
      | Some m => Some m
      | None => matchAt r' s
      end
  end.

(** [re.MatchString(s)]: the pattern matches at some position of [s]. *)
Fixpoint MatchString (r : regex) (s : string) : bool :=
  match matchAt r s with
  | Some _ => true
  | None =>
      match s with
      | EmptyString => false
      | String _ s' => MatchString r s'
      end
  end.

(** One result of [FindAllStringSubmatch]: the matched text followed by
    the text of each of the [groups] capture groups (empty for a group
    that took no part in the match). *)
Definition group (t : table) (g : nat) : string :=
  match lookup g t with
  | Some s => s
  | None => EmptyString
  end.

Definition submatch (groups : nat) (s rest : string) (t : table)
  : list string :=
  take (String.length s - String.length rest) s
    :: map (group t) (List.seq 1 groups).

(** [re.FindAllStringSubmatch(s, -1)]: the successive non-overlapping
    leftmost matches.  [skip] counts the bytes of [s] that still belong
    to the previous match. *)
Fixpoint findAll (r : regex) (groups : nat) (s : string) (skip : nat)
  : list (list string) :=
  match skip with
  | S skip' =>
      match s with
      | EmptyString => []
      | String _ s' => findAll r groups s' skip'
      end
  | O =>
      match matchAt r s with
      | Some (rest, t) =>
          submatch groups s rest t ::
          match s with
          | EmptyString => []
          | String _ s' =>
              findAll r groups s' (String.length s' - String.length rest)
          end
      | None =>
          match s with
          | EmptyString => []
          | String _ s' => findAll r groups s' 0
          end
      end
  end.

Definition FindAllStringSubmatch (r : regex) (groups : nat) (s : string)
  : list (list string) :=
  findAll r groups s 0.

(** Every byte of [s] is in the class. *)
Fixpoint every (cls : ascii -> bool) (s : string) : bool :=
  match s with
  | EmptyString => true
  | String c s' => cls c && every cls s'
  end.

(** The character classes of the program's patterns. *)
Definition notGt (c : ascii) : bool := negb (Ascii.eqb c ">").
Definition notQuote (c : ascii) : bool := negb (Ascii.eqb c GoStrings.dquote).
Definition dot (c : ascii) : bool := negb (Ascii.eqb c GoStrings.newline).


End Regexp.

(** ** The response of one probe and the state of one candidate's scan *)

(** What [httpClient.Get(url)] returns: an error, or a response with its
    status code, its [Location] header (empty when absent) and what
    [ioutil.ReadAll(resp.Body)] gives (the body, or nothing on a read
    error). *)
Record Response : Type := mkResponse {
  StatusCode : Z;
  Location : string;
  Body : option string
}.

Inductive GetResult : Type :=
| GetError
| GetOK (resp : Response).

(** The local variables of [checkSubdomain]. *)
Record ScanState : Type := mkScanState {
  accountPortalFound : bool;
  redirectURL : string;
  detectionMethod : string;
  matchedKeyword : string;
  hasForm : bool
}.

Definition initialScan : ScanState :=
  mkScanState false "" "" "" false.

Definition setRedirectURL (st : ScanState) (u : string) : ScanState :=
  mkScanState (accountPortalFound st) u (detectionMethod st)
    (matchedKeyword st) (hasForm st).

Definition setMatchedKeyword (st : ScanState) (k : string) : ScanState :=
  mkScanState (accountPortalFound st) (redirectURL st) (detectionMethod st)
    k (hasForm st).

(** The three assignments before a [break]. *)
Definition setFound (st : ScanState) (method : string) : ScanState :=
  mkScanState true (redirectURL st) method (matchedKeyword st) true.

(** How one pass through the loop body ends: [continue] (or the end of the
    body) or [break]. *)
Inductive Flow : Type :=
| Continue (st : ScanState)
| Break (st : ScanState).

Definition isBreak (f : Flow) : bool :=
  match f with
  | Break _ => true
  | Continue _ => false
  end.

Definition flowState (f : Flow) : ScanState :=
  match f with
  | Break st => st
  | Continue st => st
  end.

Definition KeywordWithForm : string := "Keywords in body with form".
Definition LinkWithForm : string := "Links or buttons in body with form".

(** ** checkSubdomain, over the configuration and the classifier

    The two variants have the same loop; they differ in the path list and
    in the three classifier functions. *)

Section Scanner.

Variable createAccountPaths : list string.
Variable findMatchingKeyword : string -> string.
Variable containsCreateAccountLinks : string -> bool.
Variable containsForm : string -> bool.

(** The network: the result of [httpClient.Get] for each URL. *)
Variable Get : string -> GetResult.

(** The status test of the loop,
    [StatusCode != http.StatusOK && !strings.HasPrefix(fmt.Sprint(StatusCode), "3")]:
    when it holds the loop moves on to the next path. *)
Definition statusRejected (code : Z) : bool :=
  negb (code =? 200)%Z
  && negb (GoStrings.HasPrefix (GoStrings.Sprint code) "3").

Definition statusAccepted (code : Z) : bool := negb (statusRejected code).

(** The body of the [for] loop, from the result of [Get]. *)
Definition iteration (st : ScanState) (r : GetResult) : Flow :=
  match r with
  | GetError => Continue st
  | GetOK resp =>
      let st1 :=
        if (300 <=? StatusCode resp)%Z && (StatusCode resp <? 400)%Z
        then setRedirectURL st (Location resp)
        else st in
      if statusRejected (StatusCode resp) then Continue st1
      else
        match Body resp with
        | None => Continue st1
        | Some body =>
            if (GoStrings.len body >? 10000)%Z then Continue st1
            else
              let st2 := setMatchedKeyword st1 (findMatchingKeyword body) in
              if negb (String.eqb (matchedKeyword st2) "")
                 && containsForm body
              then Break (setFound st2 KeywordWithForm)
              else if containsCreateAccountLinks body && containsForm body
              then Break (setFound st2 LinkWithForm)
              else Continue st2
        end
  end.

(** [fmt.Sprintf("%s/%s", subdomain, path)]. *)
Definition probeURL (subdomain path : string) : string :=
  subdomain ++ "/" ++ path.

(** The [for] loop over the paths: the final state and the URLs that
    were requested, in the order of the requests. *)
Fixpoint scanPaths (subdomain : string) (paths : list string)
    (st : ScanState) : ScanState * list string :=
  match paths with
  | [] => (st, [])
  | path :: rest =>
      let url := probeURL subdomain path in
      match iteration st (Get url) with
      | Break st' => (st', [url])
      | Continue st' =>
          let (final, requested) := scanPaths subdomain rest st' in
          (final, url :: requested)
      end
  end.

(** Whether the probe of [path] ends the loop. *)
Definition pathMatches (subdomain path : string) : bool :=
  isBreak (iteration initialScan (Get (probeURL subdomain path))).

Definition scanState (subdomain : string) : ScanState :=
  fst (scanPaths subdomain createAccountPaths initialScan).

(** The requests [checkSubdomain] sends. *)
Definition requests (subdomain : string) : list string :=
  snd (scanPaths subdomain createAccountPaths initialScan).

(** The value [checkSubdomain] returns. *)
Definition checkSubdomain (subdomain : string) : bool :=
  let st := scanState subdomain in
  accountPortalFound st && hasForm st.

End Scanner.

(** ** The first variant (lines 1-257) *)

Module V1.

Definition createAccountPaths : list string :=
  ["login"; "register"; "signup"; "signin"; "create-account"; "log-in";
   "sign-in"; "sign-up"; "authentication"; "forgot-password";
   "reset-password"].

Definition createAccountKeywords : list string :=
  ["login"; "register"; "signup"; "signin"; "create account"; "log in";
   "sign in"; "sign up"; "authentication"; "forgot password";
   "reset password"].

(** The loop of [findMatchingKeyword] over a keyword list. *)
Fixpoint firstKeyword (keywords : list string) (body : string) : string :=
  match keywords with
  | [] => ""
  | keyword :: rest =>
      if GoStrings.Contains (GoStrings.ToLower body) keyword then keyword
      else firstKeyword rest body
  end.

Definition findMatchingKeyword (body : string) : string :=
  firstKeyword createAccountKeywords body.

(** The pattern of [containsCreateAccountLinks]: an anchor with a
    double-quoted [href] (groups 1 and 2) or a button (group 3). *)
Definition linkPattern : Regexp.regex :=
  [ (Regexp.lit "<a" ++ [Regexp.Star Regexp.notGt]
      ++ Regexp.lit (String.append "href=" GoStrings.dq)
      ++ [Regexp.Open 1; Regexp.Star Regexp.notQuote; Regexp.Close 1]
      ++ Regexp.lit GoStrings.dq
      ++ [Regexp.Star Regexp.notGt] ++ Regexp.lit ">"
      ++ [Regexp.Open 2; Regexp.StarLazy Regexp.dot; Regexp.Close 2]
      ++ Regexp.lit "</a>")%list;
    (Regexp.lit "<button" ++ [Regexp.Star Regexp.notGt] ++ Regexp.lit ">"
      ++ [Regexp.Open 3; Regexp.StarLazy Regexp.dot; Regexp.Close 3]
      ++ Regexp.lit "</button>")%list ].

(** The loop over the matches: elements 1 and 2 of each match are
    tested, element 3 (the button text) is not. *)
Fixpoint anyLinkKeyword (matches : list (list string)) : bool :=
  match matches with
  | [] => false
  | m :: rest =>
      if (1 <? List.length m)%nat
         && negb (String.eqb (findMatchingKeyword (nth 1 m "")) "")
      then true
      else if (2 <? List.length m)%nat
              && negb (String.eqb (findMatchingKeyword (nth 2 m "")) "")
      then true
      else anyLinkKeyword rest
  end.

Definition containsCreateAccountLinks (body : string) : bool :=
  anyLinkKeyword (Regexp.FindAllStringSubmatch linkPattern 3 body).

Definition formPattern : Regexp.regex :=
  [ (Regexp.lit "<form" ++ [Regexp.Star Regexp.notGt]
      ++ Regexp.lit ">")%list ].

Definition containsForm (body : string) : bool :=
  Regexp.MatchString formPattern body.

Definition checkSubdomain (Get : string -> GetResult) : string -> bool :=
  checkSubdomain createAccountPaths findMatchingKeyword
    containsCreateAccountLinks containsForm Get.

End V1.

(** ** The second variant (lines 258-486) *)

Module V2.

Definition createAccountPaths : list string :=
  ["signup"; "register"; "create-account"; "account/create"; "user/create";
   "account/signup"].

Definition keywords : list string :=
  ["create account"; "sign up"; "register"; "join"; "signup"].

Definition findMatchingKeyword (body : string) : string :=
  V1.firstKeyword keywords body.

Definition containsForm (body : string) : bool :=
  GoStrings.Contains body "<form".

Definition links : list string :=
  ["create account"; "sign up"; "register"; "join"].

Fixpoint anyLink (links : list string) (body : string) : bool :=
  match links with
  | [] => false
  | link :: rest =>
      if GoStrings.Contains (GoStrings.ToLower body) link then true
      else anyLink rest body
  end.

Definition containsCreateAccountLinks (body : string) : bool :=
  anyLink links body.

Definition checkSubdomain (Get : string -> GetResult) : string -> bool :=
  checkSubdomain createAccountPaths findMatchingKeyword
    containsCreateAccountLinks containsForm Get.

End V2.

(** ** main: one goroutine per candidate, the mutex and the progress channel

    The goroutines of [main] are modelled as an interleaving of atomic
    steps, one step per access to a shared variable, lock operation or
    channel operation.  Worker [i] is the goroutine of [subdomains[i]]; the
    reporter is the goroutine of [animatedIndicator], which is always ready
    to receive until it is told to stop.  The channels are unbuffered, so a
    send and its receipt are one step.  A schedule is the list of the
    goroutines that take the successive steps.

    The unsynchronised [validSubdomains = append(validSubdomains, subdomain)]
    of the first variant is taken as two steps, the read of the slice and
    the assignment of the result.  The program's races on the words of the
    slice header and on the shared backing array have more outcomes than
    these; they are not modelled.  A run of this model is a run of the
    program, so a lost candidate here is a lost candidate there; what holds
    of [validSubdomains] in every state of the model need not hold of the
    program. *)

Module Orchestrator.

Inductive Variant : Type :=
| InMemory     (* first variant: matched hosts appended to validSubdomains *)
| AppendFile.  (* second variant: matched hosts written to the file at once *)

(** Where a worker is in the body of its goroutine. *)
Inductive WorkerPC : Type :=
| Scanning                     (* about to call checkSubdomain *)
| Loading                      (* append: about to read validSubdomains *)
| Storing (old : list string)  (* about to assign append(old, subdomain) *)
| Writing                      (* about to call outputFile.WriteString *)
| Locking                      (* at mu.Lock() *)
| Incrementing                 (* at progress++ *)
| Unlocking                    (* at mu.Unlock() *)
| Reading                      (* about to evaluate the operand of the send *)
| Sending (count : Z)          (* at progressChan <- count *)
| Finished.                    (* wg.Done() has run *)

Inductive MainPC : Type :=
| Waiting      (* at wg.Wait() *)
| Stopping     (* at indicatorDone <- true *)
| Saving       (* at saveSubdomainsToFile *)
| Returned.

Record State : Type := mkState {
  workers : list WorkerPC;
  validSubdomains : list string;
  mu : option nat;               (* the worker that holds the mutex *)
  progress : Z;
  shown : list Z;                (* the counts the reporter received *)
  reporting : bool;              (* the reporter has not returned *)
  mainPC : MainPC;
  file : list string             (* the lines written to the output file *)
}.

Inductive Goroutine : Type :=
| Worker (i : nat)
| Main.

Fixpoint update {A : Type} (i : nat) (x : A) (l : list A) : list A :=
  match l, i with
  | [], _ => []
  | _ :: l', O => x :: l'
  | y :: l', S i' => y :: update i' x l'
  end.

Definition isFinished (pc : WorkerPC) : bool :=
  match pc with
  | Finished => true
  | _ => false
  end.

(** The worker is between [mu.Lock()] and [mu.Unlock()]. *)
Definition holdsLock (pc : WorkerPC) : bool :=
  match pc with
  | Incrementing | Unlocking => true
  | _ => false
  end.

Section Run.

Variable variant : Variant.
Variable subdomains : list string.
(** What [checkSubdomain] returns for each candidate. *)
Variable verdict : string -> bool.
(** Whether the [-o] flag names an output file. *)
Variable output : bool.

Definition initial : State :=
  mkState (map (fun _ => Scanning) subdomains) [] None 0 [] true
    Waiting [].

Definition setWorker (s : State) (i : nat) (pc : WorkerPC) : State :=
  mkState (update i pc (workers s)) (validSubdomains s) (mu s)
    (progress s) (shown s) (reporting s) (mainPC s) (file s).

(** One step of worker [i], whose candidate is [subdomain]; [None] when
    the worker is blocked or has finished. *)
Definition stepWorker (s : State) (i : nat) (subdomain : string)
    (pc : WorkerPC) : option State :=
  match pc with
  | Scanning =>
      Some (setWorker s i
              (if verdict subdomain then
                 match variant with
                 | InMemory => Loading
                 | AppendFile => if output then Writing else Locking
                 end
               else Locking))
  | Loading => Some (setWorker s i (Storing (validSubdomains s)))
  | Storing old =>
      Some (mkState (update i Locking (workers s)) (old ++ [subdomain])
              (mu s) (progress s) (shown s) (reporting s) (mainPC s)
              (file s))
  | Writing =>
      Some (mkState (update i Locking (workers s)) (validSubdomains s)
              (mu s) (progress s) (shown s) (reporting s) (mainPC s)
              (file s ++ [subdomain ++ String GoStrings.newline ""]))
  | Locking =>
      match mu s with
      | None =>
          Some (mkState (update i Incrementing (workers s))
                  (validSubdomains s) (Some i) (progress s) (shown s)
                  (reporting s) (mainPC s) (file s))
      | Some _ => None
      end
  | Incrementing =>
      Some (mkState (update i Unlocking (workers s)) (validSubdomains s)
              (mu s) (progress s + 1)%Z (shown s) (reporting s)
              (mainPC s) (file s))
  | Unlocking =>
      Some (mkState (update i Reading (workers s)) (validSubdomains s)
              None (progress s) (shown s) (reporting s) (mainPC s)
              (file s))
  | Reading => Some (setWorker s i (Sending (progress s)))
  | Sending count =>
      if reporting s then
        Some (mkState (update i Finished (workers s)) (validSubdomains s)
                (mu s) (progress s) (shown s ++ [count]) (reporting s)
                (mainPC s) (file s))
      else None
  | Finished => None
  end.

(** One step of the main goroutine after it has started the workers. *)
Definition stepMain (s : State) : option State :=
  match mainPC s with
  | Waiting =>
      if forallb isFinished (workers s) then
        Some (mkState (workers s) (validSubdomains s) (mu s) (progress s)
                (shown s) (reporting s) Stopping (file s))
      else None
  | Stopping =>
      if reporting s then
        Some (mkState (workers s) (validSubdomains s) (mu s) (progress s)
                (shown s) false
                match variant with
                | InMemory => Saving
                | AppendFile => Returned
                end
                (file s))
      else None
  | Saving =>
      Some (mkState (workers s) (validSubdomains s) (mu s) (progress s)
              (shown s) (reporting s) Returned
              (if output then
                 map (fun d => d ++ String GoStrings.newline "")
                   (validSubdomains s)
               else file s))
  | Returned => None
  end.

Definition step (s : State) (g : Goroutine) : option State :=
  match g with
  | Worker i =>
      match nth_error (workers s) i, nth_error subdomains i with
      | Some pc, Some subdomain => stepWorker s i subdomain pc
      | _, _ => None
      end
  | Main => stepMain s
  end.

(** The state after a schedule, when every step of it is enabled. *)
Fixpoint run (schedule : list Goroutine) (s : State) : option State :=
  match schedule with
  | [] => Some s
  | g :: rest =>
      match step s g with
      | Some s' => run rest s'
      | None => None
      end
  end.

Definition reachable (s : State) : Prop :=
  exists schedule, run schedule initial = Some s.

End Run.

(** Mutual exclusion: the mutex is held by worker [i] exactly when
    worker [i] is between [Lock] and [Unlock]. *)
Definition lockInvariant (s : State) : Prop :=
  (forall i pc, nth_error (workers s) i = Some pc ->
                holdsLock pc = true -> mu s = Some i)
  /\ (forall i, mu s = Some i ->
                exists pc, nth_error (workers s) i = Some pc
                           /\ holdsLock pc = true).

End Orchestrator.

(** ** The words of the specification

    [mentions keywords text]: the text, lower-cased by [strings.ToLower],
    contains one of the keywords. *)
Definition mentions (keywords : list string) (text : string) : Prop :=
  exists keyword,
    In keyword keywords
    /\ GoStrings.Contains (GoStrings.ToLower text) keyword = true.

(** ** Fixtures: small networks and bodies to run the program on *)

Module Fixtures.

Definition quoted (s : string) : string :=
  GoStrings.dq ++ s ++ GoStrings.dq.

(** A page with a keyword, a keyword-bearing anchor and a form. *)
Definition portalPage : string :=
  "<form action=/x><a href=" ++ quoted "/signup" ++ ">Sign in</a></form>".

(** [http://a.test]: [/login] answers 404, [/register] serves the portal
    page, every other request fails in transport. *)
Definition registerOnly (url : string) : GetResult :=
  if String.eqb url "http://a.test/login"
  then GetOK (mkResponse 404 "" (Some "<form>login</form>"))
  else if String.eqb url "http://a.test/register"
  then GetOK (mkResponse 200 "" (Some portalPage))
  else GetError.


(** Every request is answered with the same response. *)
Definition always (resp : Response) (url : string) : GetResult := GetOK resp.

(** A page of 10,001 bytes that starts with a form and a keyword. *)
Definition oversizedPage : string :=
  "<form>login</form>" ++ N.iter 9983 (String "x") "".

Definition created : Response :=
  mkResponse 201 "" (Some "<form>login</form>").

Definition okay : Response :=
  mkResponse 200 "" (Some "<form>login</form>").

(** Two candidates, both of which serve a login form on every path. *)
Definition twoHosts : list string := ["http://a.test"; "http://b.test"].

Definition bothMatch : string -> bool := V1.checkSubdomain (always okay).

Definition bothMatchV2 : string -> bool :=
  V2.checkSubdomain
    (always (mkResponse 200 "" (Some "<form>Sign up</form>"))).

(** Both workers read [validSubdomains] before either assigns the
    result of its [append]; then each reports its progress in turn. *)
Definition bothLoadFirst : list Orchestrator.Goroutine :=
  [Orchestrator.Worker 0; Orchestrator.Worker 1;
   Orchestrator.Worker 0; Orchestrator.Worker 1;
   Orchestrator.Worker 0; Orchestrator.Worker 1;
   Orchestrator.Worker 0; Orchestrator.Worker 0; Orchestrator.Worker 0;
   Orchestrator.Worker 0; Orchestrator.Worker 0;
   Orchestrator.Worker 1; Orchestrator.Worker 1; Orchestrator.Worker 1;
   Orchestrator.Worker 1; Orchestrator.Worker 1;
   Orchestrator.Main; Orchestrator.Main; Orchestrator.Main].

(** Worker 0 evaluates the operand of its send and is then overtaken:
    worker 1 increments, evaluates its operand and sends before worker 0
    sends. *)
Definition overtakenSend : list Orchestrator.Goroutine :=
  [Orchestrator.Worker 0; Orchestrator.Worker 0; Orchestrator.Worker 0;
   Orchestrator.Worker 0; Orchestrator.Worker 0; Orchestrator.Worker 0;
   Orchestrator.Worker 0;
   Orchestrator.Worker 1; Orchestrator.Worker 1; Orchestrator.Worker 1;
   Orchestrator.Worker 1; Orchestrator.Worker 1; Orchestrator.Worker 1;
   Orchestrator.Worker 1; Orchestrator.Worker 1;
   Orchestrator.Worker 0;
   Orchestrator.Main; Orchestrator.Main; Orchestrator.Main].

(** Second variant: worker 0 writes its line and takes the mutex, then
    worker 1 finishes its scan and is about to write its line. *)
Definition writeWhileLocked : list Orchestrator.Goroutine :=
  [Orchestrator.Worker 0; Orchestrator.Worker 0; Orchestrator.Worker 0;
   Orchestrator.Worker 1].

(** First variant: worker 0 takes the mutex after its append, then
    worker 1 finishes its scan and reads [validSubdomains], and is about
    to assign the result of its [append]. *)
Definition appendWhileLocked : list Orchestrator.Goroutine :=
  [Orchestrator.Worker 0; Orchestrator.Worker 0; Orchestrator.Worker 0;
   Orchestrator.Worker 0; Orchestrator.Worker 1; Orchestrator.Worker 1].

End Fixtures.

(** ** Bookkeeping over the states of main

    Measures and invariants of the interleaving model: how far each
    goroutine is from its end, which workers have run [progress++], and
    what the shared variables hold in terms of the workers' positions. *)

Module Accounting.

Import Orchestrator.

(** The worker has run [progress++]. *)
Definition counted (pc : WorkerPC) : bool :=
  match pc with
  | Unlocking | Reading | Sending _ | Finished => true
  | _ => false
  end.

(** The number of workers at a position that satisfies [p]. *)
Definition count (p : WorkerPC -> bool) (ws : list WorkerPC) : Z :=
  Z.of_nat (List.length (filter p ws)).

(** The largest number of steps a goroutine at this position still takes. *)
Definition workerRank (pc : WorkerPC) : nat :=
  match pc with
  | Scanning => 8
  | Loading => 7
  | Storing _ => 6
  | Writing => 6
  | Locking => 5
  | Incrementing => 4
  | Unlocking => 3
  | Reading => 2
  | Sending _ => 1
  | Finished => 0
  end.

Definition mainRank (pc : MainPC) : nat :=
  match pc with
  | Waiting => 3
  | Stopping => 2
  | Saving => 1
  | Returned => 0
  end.

Definition measure (s : State) : nat :=
  list_sum (map workerRank (workers s)) + mainRank (mainPC s).

(** The worker has the final count in hand: it has incremented and not
    yet evaluated the operand of its send, or it is sending [total]. *)
Definition carries (total : Z) (pc : WorkerPC) : bool :=
  match pc with
  | Unlocking | Reading => true
  | Sending c => (c =? total)%Z
  | _ => false
  end.

(** The counter, the counts in flight and the counts received, in terms
    of the workers' positions. *)
Record counting (total : nat) (s : State) : Prop := mkCounting {
  counting_workers : List.length (workers s) = total;
  counting_progress : progress s = count counted (workers s);
  counting_shown :
    Z.of_nat (List.length (shown s)) = count isFinished (workers s);
  counting_received :
    forall c, In c (shown s) -> (1 <= c <= progress s)%Z;
  counting_in_flight :
    forall i c, nth_error (workers s) i = Some (Sending c) ->
                (1 <= c <= progress s)%Z;
  counting_total :
    total = 0
    \/ (progress s < Z.of_nat total)%Z
    \/ (exists i pc, nth_error (workers s) i = Some pc
                     /\ carries (Z.of_nat total) pc = true)
    \/ In (Z.of_nat total) (shown s)
}.

(** The main goroutine and the reporter: the reporter runs until main has
    sent on [indicatorDone], and main is past [wg.Wait()] only when every
    worker has finished. *)
Definition sequencing (s : State) : Prop :=
  reporting s = match mainPC s with
                | Waiting | Stopping => true
                | Saving | Returned => false
                end
  /\ (mainPC s <> Waiting -> forallb isFinished (workers s) = true).

(** Where the output file is written: a worker is at the write only in
    the second variant, and main is at [saveSubdomainsToFile] only in the
    first. *)
Definition placed (variant : Variant) (s : State) : Prop :=
  (forall i, nth_error (workers s) i = Some Writing -> variant = AppendFile)
  /\ (mainPC s = Saving -> variant = InMemory).

(** A candidate of the list for which [checkSubdomain] returns true. *)
Definition matched (subdomains : list string) (verdict : string -> bool)
    (d : string) : Prop :=
  In d subdomains /\ verdict d = true.

(** The line [subdomain + "\n"] of the output file. *)
Definition line (d : string) : string := d ++ String GoStrings.newline "".

(** In this model of the steps, only matched candidates are on their way
    into [validSubdomains] or the output file. *)
Record sound (subdomains : list string) (verdict : string -> bool)
    (s : State) : Prop := mkSound {
  sound_valid :
    forall d, In d (validSubdomains s) -> matched subdomains verdict d;
  sound_file :
    forall l, In l (file s) ->
              exists d, l = line d /\ matched subdomains verdict d;
  sound_pending :
    forall i pc d,
      nth_error (workers s) i = Some pc ->
      nth_error subdomains i = Some d ->
      match pc with
      | Loading | Writing => verdict d = true
      | Storing old =>
          verdict d = true
          /\ forall d', In d' old -> matched subdomains verdict d'
      | _ => True
      end
}.



End Accounting.

(** ** animatedIndicator: the lines of the progress display

    The reporter prints one line for each count it receives on
    [progressChan], until it receives on [done].  The second variant
    chooses the frame of the animation by the count it has received;
    [None] stands for the run-time panic of an index out of range. *)

Module Indicator.

Definition cr : string := String (ascii_of_nat 13) "".
Definition backslash : string := String (ascii_of_nat 92) "".

Module V2.

Definition animations : list string := ["|"; "/"; "-"; backslash].

(** [animations[progress % len(animations)]]; Go's [%] truncates towards
    zero, and an index below zero or beyond the end panics. *)
Definition frame (progress : Z) : option string :=
  let animationIndex := Z.rem progress (Z.of_nat (List.length animations)) in
  if (animationIndex <? 0)%Z then None
  else nth_error animations (Z.to_nat animationIndex).

(** [fmt.Printf("\r[%s] %d/%d subdomains checked", ...)]. *)
Definition display (total progress : Z) (frame : string) : string :=
  cr ++ "[" ++ frame ++ "] " ++ GoStrings.Sprint progress ++ "/"
     ++ GoStrings.Sprint total ++ " subdomains checked".

Fixpoint animatedIndicator (total : Z) (received : list Z)
    : option (list string) :=
  match received with
  | [] => Some []
  | progress :: rest =>
      match frame progress with
      | None => None
      | Some f =>
          match animatedIndicator total rest with
          | None => None
          | Some lines => Some (display total progress f :: lines)
          end
      end
  end.

End V2.

End Indicator.

(** ** The candidate list on disk: reading and saving

    A file is modelled by its content, a string of bytes; a path that
    cannot be opened is [None].  A function that returns an error in the
    source returns [None] here. *)

Module Files.

(** *** The parts of [bufio] and [strings] that the readers use *)

Definition carriageReturn : ascii := ascii_of_nat 13.

(** [bufio.MaxScanTokenSize], the size limit of the scanner's buffer. *)
Definition MaxScanTokenSize : nat := 64 * 1024.

(** [dropCR]: a line without its one trailing carriage return. *)
Fixpoint dropCR (data : string) : string :=
  match data with
  | EmptyString => EmptyString
  | String c rest =>
      match rest with
      | EmptyString =>
          if Ascii.eqb c carriageReturn then EmptyString else data
      | String _ _ => String c (dropCR rest)
      end
  end.

(** The tokens of a [bufio.Scanner] with the default split function
    [ScanLines] and the default buffer, over the rest of the input
    [data], with [pending] the bytes of the current line read so far.
    A line ends at a line feed; the bytes after the last line feed are a
    last line when there are any.  The scanner gives up with
    [ErrTooLong] ([None]) when a line without its line feed fills the
    buffer, that is, has [MaxScanTokenSize] bytes or more. *)
Fixpoint scanLines (data pending : string) : option (list string) :=
  match data with
  | EmptyString =>
      Some (if String.eqb pending "" then [] else [dropCR pending])
  | String c rest =>
      if Ascii.eqb c GoStrings.newline then
        match scanLines rest "" with
        | Some tokens => Some (dropCR pending :: tokens)
        | None => None
        end
      else if (MaxScanTokenSize <=? String.length pending + 1)%nat then None
      else scanLines rest (pending ++ String c "")
  end.

(** [strings.Split(s, sep)] for a separator of one byte, over the rest of
    the input, with [pending] the bytes of the current part. *)
Fixpoint splitFrom (sep : ascii) (data pending : string) : list string :=
  match data with
  | EmptyString => [pending]
  | String c rest =>
      if Ascii.eqb c sep then pending :: splitFrom sep rest ""
      else splitFrom sep rest (pending ++ String c "")
  end.

Definition Split (s : string) (sep : ascii) : list string :=
  splitFrom sep s "".

Fixpoint bytes (codes : list nat) : string :=
  match codes with
  | [] => EmptyString
  | n :: rest => String (ascii_of_nat n) (bytes rest)
  end.

(** The UTF-8 encodings of the code points for which [unicode.IsSpace]
    holds: U+0009 to U+000D, U+0020, U+0085, U+00A0, U+1680, U+2000 to
    U+200A, U+2028, U+2029, U+202F, U+205F and U+3000. *)
Definition whiteSpace : list string :=
  map bytes
    [ [9]; [10]; [11]; [12]; [13]; [32];
      [194; 133]; [194; 160];
      [225; 154; 128];
      [226; 128; 128]; [226; 128; 129]; [226; 128; 130]; [226; 128; 131];
      [226; 128; 132]; [226; 128; 133]; [226; 128; 134]; [226; 128; 135];
      [226; 128; 136]; [226; 128; 137]; [226; 128; 138];
      [226; 128; 168]; [226; 128; 169]; [226; 128; 175];
      [226; 129; 159];
      [227; 128; 128] ].

(** [s] without its first [n] bytes. *)
Fixpoint skip (n : nat) (s : string) : string :=
  match n, s with
  | S n', String _ s' => skip n' s'
  | _, _ => s
  end.

(** What follows the first of the [prefixes] that [s] starts with. *)
Fixpoint after (prefixes : list string) (s : string) : option string :=
  match prefixes with
  | [] => None
  | p :: rest =>
      if GoStrings.HasPrefix s p then Some (skip (String.length p) s)
      else after rest s
  end.

(** Dropping leading [prefixes] for as long as there is one; the loop
    runs at most once for each byte. *)
Fixpoint trimPrefixes (prefixes : list string) (fuel : nat) (s : string)
    : string :=
  match fuel with
  | O => s
  | S fuel' =>
      match after prefixes s with
      | Some rest => trimPrefixes prefixes fuel' rest
      | None => s
      end
  end.

Fixpoint reverse (s : string) : string :=
  match s with
  | EmptyString => EmptyString
  | String c s' => reverse s' ++ String c ""
  end.

(** [strings.TrimLeftFunc(s, unicode.IsSpace)]. *)
Definition TrimLeft (s : string) : string :=
  trimPrefixes whiteSpace (String.length s) s.

(** [strings.TrimRightFunc(s, unicode.IsSpace)]: the same from the end,
    on the reversed bytes. *)
Definition TrimRight (s : string) : string :=
  reverse (trimPrefixes (map reverse whiteSpace) (String.length s)
             (reverse s)).

(** [strings.TrimSpace(s)]. *)
Definition TrimSpace (s : string) : string := TrimRight (TrimLeft s).

(** The text with one line for each element, each ended by a line
    feed. *)
Fixpoint unlines (lines : list string) : string :=
  match lines with
  | [] => EmptyString
  | l :: rest => l ++ String GoStrings.newline (unlines rest)
  end.

(** *** The first variant *)

Module V1.

(** [readSubdomainsFromFile]: the lines of the file, or an error when the
    file cannot be opened or the scanner gives up. *)
Definition readSubdomainsFromFile (file : option string)
    : option (list string) :=
  match file with
  | None => None
  | Some content => scanLines content ""
  end.

(** The loop of [saveSubdomainsToFile] from the [k]-th write on, over the
    content written so far: the content at the end, and whether every
    write succeeded.  [fails k] tells whether the [k]-th call of
    [WriteString] returns an error; such a call is taken to write
    nothing. *)
Fixpoint writeLines (fails : nat -> bool) (k : nat)
    (subdomains : list string) (content : string) : string * bool :=
  match subdomains with
  | [] => (content, true)
  | subdomain :: rest =>
      if fails k then (content, false)
      else writeLines fails (S k) rest
             (content ++ subdomain ++ String GoStrings.newline "")
  end.

(** [saveSubdomainsToFile]: the file after the call ([None] when
    [os.Create] fails) and whether the call returns without an error. *)
Definition saveSubdomainsToFile (creatable : bool) (fails : nat -> bool)
    (subdomains : list string) : option string * bool :=
  if creatable then
    let (content, ok) := writeLines fails 0 subdomains "" in
    (Some content, ok)
  else (None, false).

End V1.

(** *** The second variant *)

Module V2.

(** [readSubdomainsFromFile]: the parts of the content between line
    feeds, each without its leading and trailing white space. *)
Definition readSubdomainsFromFile (file : option string)
    : option (list string) :=
  match file with
  | None => None
  | Some content => Some (map TrimSpace (Split content GoStrings.newline))
  end.

End V2.

End Files.

(** * Properties *)

(** ** Strings *)

Lemma append_assoc (a b c : string) : (a ++ b) ++ c = a ++ b ++ c.
Proof.
  induction a as [|x a IH]; simpl; [reflexivity | now rewrite IH].
Qed.

Lemma append_empty_r (a : string) : a ++ "" = a.
Proof.
  induction a as [|x a IH]; simpl; [reflexivity | now rewrite IH].
Qed.

Lemma length_append (a b : string) :
  String.length (a ++ b) = String.length a + String.length b.
Proof.
  induction a as [|x a IH]; simpl; [reflexivity | now rewrite IH].
Qed.

Lemma HasPrefix_append (p s : string) : GoStrings.HasPrefix (p ++ s) p = true.
Proof.
  induction p as [|x p IH]; simpl; [reflexivity |].
  now rewrite Ascii.eqb_refl, IH.
Qed.

Lemma HasPrefix_inv (p s : string) :
  GoStrings.HasPrefix s p = true -> exists r, s = p ++ r.
Proof.
  revert s; induction p as [|x p IH]; intros s H; simpl in *.
  - now exists s.
  - destruct s as [|c s]; [discriminate |].
    apply andb_prop in H as [Hc Hp].
    apply Ascii.eqb_eq in Hc; subst c.
    destruct (IH _ Hp) as [r ->]. now exists r.
Qed.

Lemma Contains_intro (pre sub post : string) :
  GoStrings.Contains (pre ++ sub ++ post) sub = true.
Proof.
  induction pre as [|x pre IH]; simpl.
  - destruct (sub ++ post) eqn:E; simpl; rewrite <- E, HasPrefix_append;
      reflexivity.
  - rewrite IH. apply orb_true_r.
Qed.

Lemma Contains_inv (s sub : string) :
  GoStrings.Contains s sub = true -> exists pre post, s = pre ++ sub ++ post.
Proof.
  induction s as [|c s IH]; simpl; intros H.
  - rewrite orb_false_r in H. apply HasPrefix_inv in H as [r ->].
    now exists "", r.
  - apply orb_prop in H as [H | H].
    + apply HasPrefix_inv in H as [r ->]. now exists "", r.
    + destruct (IH H) as (pre & post & ->). now exists (String c pre), post.
Qed.

(** ** The status test *)

(** For a three-digit code the decimal form starts with 3 exactly from 300
    to 399; checked code by code. *)
Lemma Sprint_starts_with_3 (code : Z) :
  (100 <= code <= 999)%Z ->
  GoStrings.HasPrefix (GoStrings.Sprint code) "3"
  = ((300 <=? code)%Z && (code <=? 399)%Z).
Proof.
  intros Hc.
  assert (Hall : forallb
            (fun n => Bool.eqb
                        (GoStrings.HasPrefix (GoStrings.Sprint (Z.of_nat n)) "3")
                        ((300 <=? Z.of_nat n)%Z && (Z.of_nat n <=? 399)%Z))
            (List.seq 100 900) = true) by (vm_compute; reflexivity).
  rewrite forallb_forall in Hall.
  specialize (Hall (Z.to_nat code)).
  rewrite Z2Nat.id in Hall by lia.
  apply eqb_prop, Hall, in_seq. lia.
Qed.

Lemma statusRejected_three_digits (code : Z) :
  (100 <= code <= 999)%Z ->
  statusRejected code = true <-> code <> 200%Z /\ ~ (300 <= code <= 399)%Z.
Proof.
  intros Hc. unfold statusRejected.
  rewrite (Sprint_starts_with_3 code Hc).
  destruct (Z.eqb_spec code 200), (Z.leb_spec 300 code), (Z.leb_spec code 399);
    simpl; split; intros Hr; try discriminate; try reflexivity;
    try (destruct Hr; lia); try (split; lia).
Qed.

(** ** The loop of checkSubdomain *)

Section ScannerFacts.

Variable paths : list string.
Variable kw : string -> string.
Variables links form : string -> bool.
Variable Get : string -> GetResult.

Local Abbreviation iteration := (iteration kw links form).
Local Abbreviation scanPaths := (scanPaths kw links form Get).
Local Abbreviation matchesAt := (pathMatches kw links form Get).

(** Whether a pass breaks depends on the response only. *)
Lemma isBreak_iteration (st st' : ScanState) (r : GetResult) :
  isBreak (iteration st r) = isBreak (iteration st' r).
Proof.
  destruct r as [|resp]; simpl; [reflexivity |].
  destruct (statusRejected (StatusCode resp)); [reflexivity |].
  destruct (Body resp) as [body|]; [| reflexivity].
  destruct (GoStrings.len body >? 10000)%Z; [reflexivity |].
  simpl.
  destruct (negb _ && form body); [reflexivity |].
  destruct (links body && form body); reflexivity.
Qed.

(** A pass that breaks leaves both flags of the verdict set. *)
Lemma iteration_Break (st st' : ScanState) (r : GetResult) :
  iteration st r = Break st' ->
  accountPortalFound st' = true /\ hasForm st' = true.
Proof.
  destruct r as [|resp]; simpl; [discriminate |].
  destruct (statusRejected (StatusCode resp)); [discriminate |].
  destruct (Body resp) as [body|]; [| discriminate].
  destruct (GoStrings.len body >? 10000)%Z; [discriminate |].
  destruct (negb _ && form body).
  - intros [= <-]. now split.
  - destruct (links body && form body); [| discriminate].
    intros [= <-]. now split.
Qed.

(** A pass that continues leaves them as they were. *)
Lemma iteration_Continue (st st' : ScanState) (r : GetResult) :
  iteration st r = Continue st' ->
  accountPortalFound st' = accountPortalFound st
  /\ hasForm st' = hasForm st
  /\ detectionMethod st' = detectionMethod st.
Proof.
  destruct r as [|resp]; simpl; [now intros [= <-] |].
  destruct ((300 <=? StatusCode resp)%Z && (StatusCode resp <? 400)%Z);
    (destruct (statusRejected (StatusCode resp)); [now intros [= <-] |]);
    (destruct (Body resp) as [body|]; [| now intros [= <-]]);
    (destruct (GoStrings.len body >? 10000)%Z; [now intros [= <-] |]);
    (destruct (negb _ && form body); [discriminate |]);
    (destruct (links body && form body); [discriminate |]);
    now intros [= <-].
Qed.

(** The loop up to the first path that matches. *)
Lemma scanPaths_first_match (subdomain : string) (pre post : list string)
    (path : string) (st : ScanState) :
  (forall earlier, In earlier pre -> matchesAt subdomain earlier = false) ->
  matchesAt subdomain path = true ->
  exists stp st',
    iteration stp (Get (probeURL subdomain path)) = Break st'
    /\ scanPaths subdomain (pre ++ path :: post) st
       = (st', map (probeURL subdomain) (pre ++ [path])).
Proof.
  revert st. induction pre as [|q pre IH]; intros st Hpre Hpath; simpl.
  - unfold pathMatches in Hpath.
    rewrite (isBreak_iteration _ st) in Hpath.
    destruct (iteration st (Get (probeURL subdomain path))) as [stc|stb] eqn:E;
      [discriminate |].
    exists st, stb. now split.
  - assert (Hq : matchesAt subdomain q = false) by (apply Hpre; now left).
    unfold pathMatches in Hq.
    rewrite (isBreak_iteration _ st) in Hq.
    destruct (iteration st (Get (probeURL subdomain q))) as [stc|stb] eqn:E;
      [| discriminate].
    destruct (IH stc) as (stp & st' & Hit & Hscan);
      [intros e He; apply Hpre; now right | assumption |].
    exists stp, st'. split; [assumption |].
    now rewrite Hscan.
Qed.


Lemma first_match_split (i : nat) (path : string) :
  nth_error paths i = Some path ->
  paths = (firstn i paths ++ path :: skipn (S i) paths)%list
  /\ firstn (S i) paths = (firstn i paths ++ [path])%list.
Proof.
  intros H. split.
  - symmetry. now apply firstn_skipn_middle.
  - revert i H. induction paths as [|p ps IH]; intros [|i] H; simpl in *;
      try discriminate.
    + now injection H as ->.
    + now rewrite (IH i H).
Qed.

Lemma In_firstn_nth_error (i : nat) (q : string) :
  In q (firstn i paths) ->
  exists j, j < i /\ nth_error paths j = Some q.
Proof.
  revert i. induction paths as [|p ps IH]; intros [|i] H; simpl in *;
    try contradiction.
  destruct H as [-> | H].
  - exists 0. split; [lia | reflexivity].
  - destruct (IH i H) as (j & Hj & Hn). exists (S j). split; [lia | exact Hn].
Qed.

End ScannerFacts.

(** ** The claims about one candidate's scan *)

(** C2, as the code has it: a response with a three-digit status goes on
    to body reading and classification exactly when the status is 200 or
    lies in 300..399.  With any other status, the 2xx codes other than 200
    among them, the pass leaves the state as it was and the loop moves on to
    the next path; with an accepted status and a body within the size limit,
    the pass ends the loop exactly when one of the two rules holds. *)
Theorem status_200_or_3xx_is_classified :
  forall (kw : string -> string) (links form : string -> bool)
         (st : ScanState) (resp : Response),
    (100 <= StatusCode resp <= 999)%Z ->
    (statusAccepted (StatusCode resp) = true <->
     StatusCode resp = 200%Z \/ (300 <= StatusCode resp <= 399)%Z)
    /\ (statusAccepted (StatusCode resp) = false ->
        iteration kw links form st (GetOK resp) = Continue st)
    /\ (statusAccepted (StatusCode resp) = true ->
        forall body, Body resp = Some body ->
          (GoStrings.len body <= 10000)%Z ->
          isBreak (iteration kw links form st (GetOK resp))
          = (negb (String.eqb (kw body) "") || links body) && form body).
Proof.
  intros kw links form st resp Hc.
  pose proof (statusRejected_three_digits _ Hc) as Hrej.
  unfold statusAccepted. split; [| split].
  - destruct (statusRejected (StatusCode resp)); simpl; split; intros H.
    + discriminate.
    + destruct Hrej as [Hrej _]. specialize (Hrej eq_refl). lia.
    + destruct (Z.eq_dec (StatusCode resp) 200) as [|Hn]; [now left | right].
      destruct (Z_le_dec 300 (StatusCode resp)) as [Hl|Hl];
        destruct (Z_le_dec (StatusCode resp) 399) as [Hu|Hu]; try lia;
        assert (true = false) by (symmetry; apply Hrej; split; lia);
        discriminate.
    + reflexivity.
  - intros H. apply negb_false_iff in H.
    destruct Hrej as [Hrej _]. specialize (Hrej H). simpl. rewrite H.
    destruct (Z.leb_spec 300 (StatusCode resp));
      destruct (Z.ltb_spec (StatusCode resp) 400); simpl; try reflexivity.
    lia.
  - intros H body Hb Hlen. apply negb_true_iff in H. simpl.
    rewrite H, Hb.
    destruct (Z.gtb_spec (GoStrings.len body) 10000) as [Hgt|_]; [lia |].
    simpl.
    destruct (negb (kw body =? "")), (links body), (form body); reflexivity.
Qed.

Lemma status_200_or_3xx_is_classified_witness :
  iteration V1.findMatchingKeyword V1.containsCreateAccountLinks
    V1.containsForm initialScan (GetOK Fixtures.created)
  = Continue initialScan.
Proof.
  apply (status_200_or_3xx_is_classified V1.findMatchingKeyword
           V1.containsCreateAccountLinks V1.containsForm initialScan
           Fixtures.created).
  - simpl. lia.
  - vm_compute. reflexivity.
Defined.

(** C2 as the spec states it fails: status 201 is a 2xx status, yet the
    response is not classified, although the same body under status 200
    matches. *)
Lemma status_201_is_not_classified :
  (200 <= StatusCode Fixtures.created <= 299)%Z
  /\ statusAccepted (StatusCode Fixtures.created) = false
  /\ iteration V1.findMatchingKeyword V1.containsCreateAccountLinks
       V1.containsForm initialScan (GetOK Fixtures.created)
     = Continue initialScan
  /\ Body Fixtures.created = Body Fixtures.okay
  /\ isBreak (iteration V1.findMatchingKeyword V1.containsCreateAccountLinks
                V1.containsForm initialScan (GetOK Fixtures.okay)) = true
  /\ V1.checkSubdomain (Fixtures.always Fixtures.created) "http://a.test"
     = false
  /\ V2.checkSubdomain (Fixtures.always Fixtures.created) "http://a.test"
     = false.
Proof.
  repeat split; try (vm_compute; reflexivity); simpl; lia.
Qed.

(** C3: a pass whose body is longer than 10,000 bytes continues with the
    next path and changes neither the verdict nor the matched keyword,
    whatever the classifier functions are: the pass is the same for any
    other three functions, so none of them is consulted. *)
Theorem oversized_body_is_not_classified :
  forall (kw kw' : string -> string) (links links' form form' : string -> bool)
         (st : ScanState) (resp : Response) (body : string),
    Body resp = Some body ->
    (GoStrings.len body > 10000)%Z ->
    isBreak (iteration kw links form st (GetOK resp)) = false
    /\ iteration kw links form st (GetOK resp)
       = iteration kw' links' form' st (GetOK resp)
    /\ accountPortalFound (flowState (iteration kw links form st (GetOK resp)))
       = accountPortalFound st
    /\ matchedKeyword (flowState (iteration kw links form st (GetOK resp)))
       = matchedKeyword st.
Proof.
  intros kw kw' links links' form form' st resp body Hb Hlen. simpl.
  rewrite Hb.
  destruct (Z.gtb_spec (GoStrings.len body) 10000) as [_|Hle]; [| lia].
  destruct (statusRejected (StatusCode resp));
    destruct ((300 <=? StatusCode resp)%Z && (StatusCode resp <? 400)%Z);
    repeat split; reflexivity.
Qed.

Lemma oversized_body_is_not_classified_witness :
  GoStrings.len Fixtures.oversizedPage = 10001%Z
  /\ V1.findMatchingKeyword "<form>login</form>" = "login"
  /\ V1.containsForm "<form>login</form>" = true
  /\ isBreak (iteration V1.findMatchingKeyword V1.containsCreateAccountLinks
                V1.containsForm initialScan
                (GetOK (mkResponse 200 "" (Some Fixtures.oversizedPage))))
     = false.
Proof.
  split; [vm_compute; reflexivity |].
  split; [vm_compute; reflexivity |].
  split; [vm_compute; reflexivity |].
  apply (oversized_body_is_not_classified V1.findMatchingKeyword
           V2.findMatchingKeyword V1.containsCreateAccountLinks
           V2.containsCreateAccountLinks V1.containsForm V2.containsForm
           initialScan (mkResponse 200 "" (Some Fixtures.oversizedPage))
           Fixtures.oversizedPage).
  - reflexivity.
  - vm_compute. reflexivity.
Defined.

(** C6: the paths are requested in list order and the scan stops at the
    first path that matches: when the path at index [i] is the first to
    match, the requests are exactly those of the paths at indices 0..i, in
    that order, and the candidate is reported as matched. *)
Theorem scan_stops_at_first_match :
  forall (paths : list string) (kw : string -> string)
         (links form : string -> bool) (Get : string -> GetResult)
         (subdomain : string) (i : nat) (path : string),
    nth_error paths i = Some path ->
    (forall j earlier, j < i -> nth_error paths j = Some earlier ->
       pathMatches kw links form Get subdomain earlier = false) ->
    pathMatches kw links form Get subdomain path = true ->
    requests paths kw links form Get subdomain
    = map (probeURL subdomain) (firstn (S i) paths)
    /\ checkSubdomain paths kw links form Get subdomain = true.
Proof.
  intros paths kw links form Get subdomain i path Hnth Hearlier Hpath.
  destruct (first_match_split paths i path Hnth) as [Hsplit Hfirst].
  destruct (scanPaths_first_match kw links form Get subdomain
              (firstn i paths) (skipn (S i) paths) path initialScan)
    as (stp & st' & Hit & Hscan).
  - intros earlier Hin.
    destruct (In_firstn_nth_error paths i earlier Hin) as (j & Hj & Hn).
    now apply (Hearlier j).
  - exact Hpath.
  - rewrite <- Hsplit in Hscan. unfold requests, checkSubdomain, scanState.
    rewrite Hscan, Hfirst. simpl.
    destruct (iteration_Break _ _ _ _ _ _ Hit) as [-> ->]. now split.
Qed.

Lemma scan_stops_at_first_match_witness :
  requests V1.createAccountPaths V1.findMatchingKeyword
    V1.containsCreateAccountLinks V1.containsForm Fixtures.registerOnly
    "http://a.test"
  = ["http://a.test/login"; "http://a.test/register"]
  /\ V1.checkSubdomain Fixtures.registerOnly "http://a.test" = true.
Proof.
  apply (scan_stops_at_first_match V1.createAccountPaths
           V1.findMatchingKeyword V1.containsCreateAccountLinks
           V1.containsForm Fixtures.registerOnly "http://a.test" 1 "register").
  - reflexivity.
  - intros j earlier Hj Hn.
    destruct j as [|j]; [| lia].
    injection Hn as <-. vm_compute. reflexivity.
  - vm_compute. reflexivity.
Defined.



(** C4: when the first path to match serves, with an accepted status and
    within the size limit, a body with a keyword hit and a form tag, the
    pass on that path breaks with the method of the keyword rule from any
    state, and the verdict of the candidate carries that method and that
    keyword, never the method of the link rule; this holds in particular
    when the link rule holds on the body too. *)
Theorem keyword_rule_takes_precedence :
  forall (paths : list string) (kw : string -> string)
         (links form : string -> bool) (Get : string -> GetResult)
         (subdomain : string) (i : nat) (path : string)
         (resp : Response) (body : string),
    nth_error paths i = Some path ->
    (forall j earlier, j < i -> nth_error paths j = Some earlier ->
       pathMatches kw links form Get subdomain earlier = false) ->
    Get (probeURL subdomain path) = GetOK resp ->
    statusAccepted (StatusCode resp) = true ->
    Body resp = Some body ->
    (GoStrings.len body <= 10000)%Z ->
    kw body <> "" ->
    links body = true ->
    form body = true ->
    (forall st, exists st',
        iteration kw links form st (GetOK resp) = Break st'
        /\ detectionMethod st' = KeywordWithForm
        /\ matchedKeyword st' = kw body)
    /\ detectionMethod (scanState paths kw links form Get subdomain)
       = KeywordWithForm
    /\ detectionMethod (scanState paths kw links form Get subdomain)
       <> LinkWithForm
    /\ matchedKeyword (scanState paths kw links form Get subdomain) = kw body
    /\ checkSubdomain paths kw links form Get subdomain = true.
Proof.
  intros paths kw links form Get subdomain i path resp body
         Hnth Hearlier Hget Hacc Hb Hlen Hkw _ Hform.
  assert (Hpass : forall st, exists st',
             iteration kw links form st (GetOK resp) = Break st'
             /\ detectionMethod st' = KeywordWithForm
             /\ matchedKeyword st' = kw body).
  { intros st. simpl. apply negb_true_iff in Hacc. rewrite Hacc, Hb.
    destruct (Z.gtb_spec (GoStrings.len body) 10000) as [Hgt|_]; [lia |].
    simpl. apply String.eqb_neq in Hkw. rewrite Hkw, Hform. simpl.
    eexists. split; [reflexivity |]. now split. }
  split; [exact Hpass |].
  assert (Hpath : pathMatches kw links form Get subdomain path = true).
  { unfold pathMatches. rewrite Hget.
    destruct (Hpass initialScan) as (st' & -> & _). reflexivity. }
  destruct (first_match_split paths i path Hnth) as [Hsplit Hfirst].
  destruct (scanPaths_first_match kw links form Get subdomain
              (firstn i paths) (skipn (S i) paths) path initialScan)
    as (stp & st' & Hit & Hscan).
  - intros earlier Hin.
    destruct (In_firstn_nth_error paths i earlier Hin) as (j & Hj & Hn).
    now apply (Hearlier j).
  - exact Hpath.
  - rewrite <- Hsplit in Hscan. unfold checkSubdomain, scanState.
    rewrite Hscan. simpl. rewrite Hget in Hit.
    destruct (Hpass stp) as (st'' & Hit' & Hm & Hk).
    rewrite Hit' in Hit. injection Hit as <-.
    destruct (iteration_Break _ _ _ _ _ _ Hit') as [-> ->].
    rewrite Hm, Hk. repeat split. discriminate.
Qed.

Lemma keyword_rule_takes_precedence_witness :
  detectionMethod
    (scanState V1.createAccountPaths V1.findMatchingKeyword
       V1.containsCreateAccountLinks V1.containsForm Fixtures.registerOnly
       "http://a.test")
  = KeywordWithForm
  /\ matchedKeyword
       (scanState V1.createAccountPaths V1.findMatchingKeyword
          V1.containsCreateAccountLinks V1.containsForm Fixtures.registerOnly
          "http://a.test")
     = "signup".
Proof.
  destruct (keyword_rule_takes_precedence V1.createAccountPaths
              V1.findMatchingKeyword V1.containsCreateAccountLinks
              V1.containsForm Fixtures.registerOnly "http://a.test"
              1 "register" (mkResponse 200 "" (Some Fixtures.portalPage))
              Fixtures.portalPage)
    as (_ & Hm & _ & Hk & _).
  - reflexivity.
  - intros j earlier Hj Hn.
    destruct j as [|j]; [| lia].
    injection Hn as <-. vm_compute. reflexivity.
  - reflexivity.
  - vm_compute. reflexivity.
  - reflexivity.
  - vm_compute. discriminate.
  - vm_compute. discriminate.
  - vm_compute. reflexivity.
  - vm_compute. reflexivity.
  - split; [exact Hm |]. rewrite Hk. vm_compute. reflexivity.
Defined.

(** ** The matcher *)

Section MatcherFacts.

Import Regexp.

Lemma take_append (a b : string) :
  take (String.length (a ++ b) - String.length b) (a ++ b) = a.
Proof.
  rewrite length_append, Nat.add_sub.
  induction a as [|x a IH]; simpl.
  - now destruct b.
  - now rewrite IH.
Qed.

Lemma run_lit (p : string) (re : seq) (s : string) (o c : table) :
  run (lit p ++ re)%list (p ++ s) o c = run re s o c.
Proof.
  induction p as [|x p IH]; simpl; [reflexivity |].
  now rewrite Ascii.eqb_refl.
Qed.

Lemma run_lit_inv (p : string) (re : seq) (s : string) (o c : table)
    (r : string * table) :
  run (lit p ++ re)%list s o c = Some r ->
  exists s1, s = p ++ s1 /\ run re s1 o c = Some r.
Proof.
  revert s. induction p as [|x p IH]; intros s H; simpl in *.
  - now exists s.
  - destruct s as [|y s]; [discriminate |].
    destruct (Ascii.eqb_spec x y) as [<-|]; [| discriminate].
    destruct (IH s H) as (s1 & -> & Hr). now exists s1.
Qed.


Lemma starGreedy_inv {R : Type} (cls : ascii -> bool)
    (k : string -> option R) (s : string) (r : R) :
  starGreedy cls k s = Some r ->
  exists a s1, s = a ++ s1 /\ every cls a = true /\ k s1 = Some r.
Proof.
  induction s as [|x s IH]; simpl; intros H.
  - now exists "", "".
  - destruct (cls x) eqn:Ex.
    + destruct (starGreedy cls k s) as [r'|] eqn:E.
      * injection H as <-.
        destruct (IH eq_refl) as (a & s1 & -> & Ha & Hk).
        exists (String x a), s1. simpl. now rewrite Ex, Ha.
      * now exists "", (String x s).
    + now exists "", (String x s).
Qed.

Lemma starGreedy_some {R : Type} (cls : ascii -> bool)
    (k : string -> option R) (a s1 : string) :
  every cls a = true -> k s1 <> None -> starGreedy cls k (a ++ s1) <> None.
Proof.
  intros Ha Hk. induction a as [|x a IH]; simpl in *.
  - destruct s1 as [|y s1]; simpl; [exact Hk |].
    destruct (cls y); [| exact Hk].
    now destruct (starGreedy cls k s1).
  - apply andb_prop in Ha as [Hx Ha]. rewrite Hx.
    specialize (IH Ha).
    now destruct (starGreedy cls k (a ++ s1)).
Qed.

Lemma starLazy_inv {R : Type} (cls : ascii -> bool)
    (k : string -> option R) (s : string) (r : R) :
  starLazy cls k s = Some r ->
  exists a s1, s = a ++ s1 /\ every cls a = true /\ k s1 = Some r.
Proof.
  induction s as [|x s IH]; simpl; intros H.
  - destruct (k "") eqn:E; [| discriminate].
    injection H as <-. now exists "", "".
  - destruct (k (String x s)) eqn:E.
    + injection H as <-. now exists "", (String x s).
    + destruct (cls x) eqn:Ex; [| discriminate].
      destruct (IH H) as (a & s1 & -> & Ha & Hk).
      exists (String x a), s1. simpl. now rewrite Ex, Ha.
Qed.

(** [MatchString] is a match at the start of some suffix. *)
Lemma MatchString_iff (r : regex) (s : string) :
  MatchString r s = true <->
  exists pre s1, s = pre ++ s1 /\ matchAt r s1 <> None.
Proof.
  induction s as [|x s IH]; simpl.
  - destruct (matchAt r "") eqn:E; split; intros H; try reflexivity.
    + exists "", "". split; [reflexivity | now rewrite E].
    + discriminate.
    + destruct H as (pre & s1 & Hs & Hm).
      destruct pre; [| discriminate]. simpl in Hs. subst s1. now rewrite E in Hm.
  - destruct (matchAt r (String x s)) eqn:E; split; intros H;
      try reflexivity.
    + exists "", (String x s). split; [reflexivity | now rewrite E].
    + apply IH in H as (pre & s1 & -> & Hm). now exists (String x pre), s1.
    + apply IH. destruct H as (pre & s1 & Hs & Hm).
      destruct pre as [|y pre]; simpl in Hs.
      * subst s1. now rewrite E in Hm.
      * injection Hs as _ ->. now exists pre, s1.
Qed.

(** Every result of [findAll] is a match at the start of some suffix. *)
Lemma findAll_inv (r : regex) (groups : nat) (s : string) (skip : nat)
    (m : list string) :
  In m (findAll r groups s skip) ->
  exists pre s1 rest t,
    s = pre ++ s1 /\ matchAt r s1 = Some (rest, t)
    /\ m = submatch groups s1 rest t.
Proof.
  revert skip. induction s as [|x s IH]; intros skip H.
  - destruct skip as [|skip]; simpl in H; [| contradiction].
    destruct (matchAt r "") as [[rest t]|] eqn:E; [| contradiction].
    destruct H as [<- | []]. now exists "", "", rest, t.
  - destruct skip as [|skip]; simpl in H.
    + destruct (matchAt r (String x s)) as [[rest t]|] eqn:E.
      * destruct H as [<- | H].
        -- now exists "", (String x s), rest, t.
        -- apply IH in H as (pre & s1 & rest' & t' & -> & Hm & ->).
           now exists (String x pre), s1, rest', t'.
      * apply IH in H as (pre & s1 & rest' & t' & -> & Hm & ->).
        now exists (String x pre), s1, rest', t'.
    + apply IH in H as (pre & s1 & rest' & t' & -> & Hm & ->).
      now exists (String x pre), s1, rest', t'.
Qed.

(** The first [>] of a string that has one. *)
Lemma first_gt (s : string) :
  GoStrings.Contains s ">" = true ->
  exists a b, s = a ++ ">" ++ b /\ every notGt a = true.
Proof.
  induction s as [|x s IH]; simpl; intros H; [discriminate |].
  destruct (Ascii.eqb_spec x ">") as [->|Hx].
  - now exists "", s.
  - simpl in H. destruct (IH H) as (a & b & -> & Ha).
    exists (String x a), b. simpl. rewrite Ha. unfold notGt.
    apply Ascii.eqb_neq in Hx. now rewrite Hx.
Qed.

(** Where the form pattern matches at the start of a string. *)
Lemma formPattern_at (s : string) :
  matchAt V1.formPattern s <> None <->
  exists rest, s = "<form" ++ rest /\ GoStrings.Contains rest ">" = true.
Proof.
  unfold V1.formPattern, matchAt. split.
  - intros H.
    destruct (run (lit "<form" ++ [Star notGt] ++ lit ">")%list s [] [])
      as [r|] eqn:E; [clear H | contradiction].
    apply run_lit_inv in E as (s1 & -> & E).
    cbn [List.app run lit] in E.
    apply starGreedy_inv in E as (a & s2 & -> & _ & E).
    destruct s2 as [|y s2]; [discriminate |].
    destruct (Ascii.eqb_spec ">" y) as [<-|]; [| discriminate].
    exists (a ++ String ">" s2). split; [reflexivity |].
    apply (Contains_intro a ">" s2).
  - intros (rest & -> & H).
    apply first_gt in H as (a & b & -> & Ha).
    rewrite run_lit.
    assert (Hs : starGreedy notGt
                   (fun s' => run (lit ">") s' [] []) (a ++ ">" ++ b)
                 <> None).
    { apply starGreedy_some; [exact Ha |].
      cbn [run lit append]. rewrite Ascii.eqb_refl. discriminate. }
    cbn [List.app run lit] in *.
    now destruct (starGreedy notGt _ (a ++ ">" ++ b)).
Qed.

End MatcherFacts.

(** ** The two form tests *)

Lemma containsForm_regex (body : string) :
  V1.containsForm body = true <->
  exists pre rest,
    body = pre ++ "<form" ++ rest /\ GoStrings.Contains rest ">" = true.
Proof.
  unfold V1.containsForm. rewrite MatchString_iff. split.
  - intros (pre & s1 & -> & H).
    apply formPattern_at in H as (rest & -> & H). now exists pre, rest.
  - intros (pre & rest & -> & H).
    exists pre, ("<form" ++ rest). split; [reflexivity |].
    apply formPattern_at. now exists rest.
Qed.

Lemma containsForm_substring (body : string) :
  V2.containsForm body = true <->
  exists pre rest, body = pre ++ "<form" ++ rest.
Proof.
  unfold V2.containsForm. split.
  - apply Contains_inv.
  - intros (pre & rest & ->). apply Contains_intro.
Qed.

(** C10, as the code has it: the regular-expression test holds exactly
    when some [<form] is followed, anywhere later in the body, by [>]; the
    substring test holds exactly when [<form] occurs.  So the first implies
    the second, and the two differ exactly on the bodies that contain
    [<form] with no [>] after it. *)
Theorem form_tests_compared :
  forall body : string,
    (V1.containsForm body = true <->
     exists pre rest,
       body = pre ++ "<form" ++ rest /\ GoStrings.Contains rest ">" = true)
    /\ (V2.containsForm body = true <->
        exists pre rest, body = pre ++ "<form" ++ rest)
    /\ (V1.containsForm body = true -> V2.containsForm body = true)
    /\ (V1.containsForm body <> V2.containsForm body <->
        V2.containsForm body = true /\ V1.containsForm body = false).
Proof.
  intros body.
  split; [apply containsForm_regex |].
  split; [apply containsForm_substring |].
  assert (Himp : V1.containsForm body = true -> V2.containsForm body = true).
  { intros H. apply containsForm_regex in H as (pre & rest & -> & _).
    apply containsForm_substring. now exists pre, rest. }
  split; [exact Himp |].
  destruct (V1.containsForm body), (V2.containsForm body); split;
    try (intros []; congruence); try congruence.
  - intros _. specialize (Himp eq_refl). discriminate.
  - intros _. now split.
Qed.

Lemma form_tests_compared_witness :
  V1.containsForm "<form action=/x>" = true
  /\ V2.containsForm "<form action=/x>" = true.
Proof.
  assert (H : V1.containsForm "<form action=/x>" = true)
    by (vm_compute; reflexivity).
  split; [exact H |].
  destruct (form_tests_compared "<form action=/x>") as (_ & _ & Himp & _).
  exact (Himp H).
Defined.

(** C10 as stated fails: on a body that ends inside the opening form tag
    the regular expression does not match and the substring test holds. *)
Lemma form_tests_differ :
  ~ (forall body : string, V1.containsForm body = V2.containsForm body).
Proof.
  intros H. specialize (H "<form"). vm_compute in H. discriminate.
Qed.

(** ** The link test *)

Section LinkFacts.

Import Regexp.

Local Abbreviation dq := GoStrings.dq.

(** What a match of the link pattern at the start of a string looks
    like: an anchor with its [href] value and its text captured, or a
    button with its text captured. *)
Lemma linkPattern_at (s rest : string) (t : table) :
  matchAt V1.linkPattern s = Some (rest, t) ->
  (exists a1 H a2 T,
      s = "<a" ++ a1 ++ "href=" ++ dq ++ H ++ dq ++ a2 ++ ">" ++ T
            ++ "</a>" ++ rest
      /\ t = [(2, T); (1, H)]
      /\ every notQuote H = true /\ every dot T = true)
  \/ (exists a T,
         s = "<button" ++ a ++ ">" ++ T ++ "</button>" ++ rest
         /\ t = [(3, T)] /\ every dot T = true).
Proof.
  unfold V1.linkPattern, matchAt.
  match goal with
  | |- match ?x with _ => _ end = _ -> _ => destruct x as [r|] eqn:E
  end.
  - intros [= ->]. left.
    apply run_lit_inv in E as (s1 & -> & E).
    cbn [List.app run] in E.
    apply starGreedy_inv in E as (a1 & s2 & -> & _ & E).
    apply run_lit_inv in E as (s3 & -> & E).
    cbn [List.app run] in E.
    apply starGreedy_inv in E as (H & s4 & -> & HH & E).
    cbn [lookup Nat.eqb] in E. rewrite take_append in E.
    apply run_lit_inv in E as (s5 & -> & E).
    cbn [List.app run] in E.
    apply starGreedy_inv in E as (a2 & s6 & -> & _ & E).
    apply run_lit_inv in E as (s7 & -> & E).
    cbn [List.app run] in E.
    apply starLazy_inv in E as (T & s8 & -> & HT & E).
    cbn [lookup Nat.eqb] in E. rewrite take_append in E.
    rewrite <- (app_nil_r (lit "</a>")) in E.
    apply run_lit_inv in E as (s9 & -> & E).
    cbn [run] in E. injection E as <- <-.
    exists a1, H, a2, T.
    rewrite !append_assoc. cbn [append]. now repeat split.
  - match goal with
    | |- match ?x with _ => _ end = _ -> _ => destruct x as [r|] eqn:E2
    end; [| discriminate].
    intros [= ->]. right.
    apply run_lit_inv in E2 as (s1 & -> & E2).
    cbn [List.app run] in E2.
    apply starGreedy_inv in E2 as (a & s2 & -> & _ & E2).
    apply run_lit_inv in E2 as (s3 & -> & E2).
    cbn [List.app run] in E2.
    apply starLazy_inv in E2 as (T & s4 & -> & HT & E2).
    cbn [lookup Nat.eqb] in E2. rewrite take_append in E2.
    rewrite <- (app_nil_r (lit "</button>")) in E2.
    apply run_lit_inv in E2 as (s5 & -> & E2).
    cbn [run] in E2. injection E2 as <- <-.
    exists a, T. now repeat split.
Qed.

Lemma firstKeyword_mentions (keywords : list string) (text : string) :
  V1.firstKeyword keywords text <> "" -> mentions keywords text.
Proof.
  induction keywords as [|k ks IH]; simpl; intros H; [contradiction |].
  destruct (GoStrings.Contains (GoStrings.ToLower text) k) eqn:E.
  - exists k. split; [now left | exact E].
  - destruct (IH H) as (k' & Hin & Hc). exists k'. split; [now right | exact Hc].
Qed.

Lemma mentions_firstKeyword (keywords : list string) (text : string) :
  (forall k, In k keywords -> k <> "") ->
  mentions keywords text -> V1.firstKeyword keywords text <> "".
Proof.
  intros Hne (k & Hin & Hc).
  induction keywords as [|k0 ks IH]; simpl; [contradiction |].
  destruct (GoStrings.Contains (GoStrings.ToLower text) k0) eqn:E.
  - apply Hne. now left.
  - destruct Hin as [-> | Hin]; [congruence |].
    apply IH; [| exact Hin]. intros k' Hk'. apply Hne. now right.
Qed.

Lemma anyLinkKeyword_inv (matches : list (list string)) :
  V1.anyLinkKeyword matches = true ->
  exists m, In m matches
            /\ (V1.findMatchingKeyword (nth 1 m "") <> ""
                \/ V1.findMatchingKeyword (nth 2 m "") <> "").
Proof.
  induction matches as [|m ms IH]; simpl; [discriminate |].
  destruct ((1 <? List.length m)%nat
            && negb (V1.findMatchingKeyword (nth 1 m "") =? "")) eqn:E1.
  - intros _. exists m. split; [now left | left].
    apply andb_prop in E1 as [_ E1]. apply negb_true_iff in E1.
    now apply String.eqb_neq.
  - destruct ((2 <? List.length m)%nat
              && negb (V1.findMatchingKeyword (nth 2 m "") =? "")) eqn:E2.
    + intros _. exists m. split; [now left | right].
      apply andb_prop in E2 as [_ E2]. apply negb_true_iff in E2.
      now apply String.eqb_neq.
    + intros H. destruct (IH H) as (m' & Hin & Hk).
      exists m'. split; [now right | exact Hk].
Qed.

(** A link hit of the first variant comes from an anchor match. *)
Lemma containsCreateAccountLinks_anchor (body : string) :
  V1.containsCreateAccountLinks body = true ->
  exists pre a1 H a2 T post,
    body = pre ++ "<a" ++ a1 ++ "href=" ++ dq ++ H ++ dq ++ a2 ++ ">" ++ T
             ++ "</a>" ++ post
    /\ every notQuote H = true /\ every dot T = true
    /\ (mentions V1.createAccountKeywords H
        \/ mentions V1.createAccountKeywords T).
Proof.
  unfold V1.containsCreateAccountLinks, FindAllStringSubmatch. intros Hany.
  apply anyLinkKeyword_inv in Hany as (m & Hin & Hk).
  apply findAll_inv in Hin as (pre & s1 & rest & t & -> & Hm & ->).
  apply linkPattern_at in Hm
    as [(a1 & H & a2 & T & -> & -> & HH & HT) | (a & T & -> & -> & _)].
  - exists pre, a1, H, a2, T, rest. repeat split; try assumption.
    cbn in Hk. destruct Hk as [Hk | Hk]; [left | right];
      now apply firstKeyword_mentions.
  - cbn in Hk. destruct Hk as [Hk | Hk]; exfalso; apply Hk;
      vm_compute; reflexivity.
Qed.

Lemma anyLink_mentions (links : list string) (body : string) :
  V2.anyLink links body = true <-> mentions links body.
Proof.
  induction links as [|l ls IH]; simpl.
  - split; [discriminate | intros (k & [] & _)].
  - destruct (GoStrings.Contains (GoStrings.ToLower body) l) eqn:E; split.
    + intros _. exists l. split; [now left | exact E].
    + reflexivity.
    + intros H. apply IH in H as (k & Hin & Hc).
      exists k. split; [now right | exact Hc].
    + intros (k & [-> | Hin] & Hc); [congruence |].
      apply IH. now exists k.
Qed.

End LinkFacts.

(** ** A plain anchor is found *)

Section AnchorFacts.

Import Regexp.

Local Abbreviation dq := GoStrings.dq.









End AnchorFacts.

Section AnchorMatch.

Import Regexp.

Local Abbreviation dq := GoStrings.dq.




End AnchorMatch.

Lemma V1_keywords_not_empty (k : string) :
  In k V1.createAccountKeywords -> k <> "".
Proof.
  unfold V1.createAccountKeywords. intros Hk.
  repeat (destruct Hk as [<- | Hk]; [discriminate |]). contradiction.
Qed.





(** ** The goroutines of main *)

Section OrchestratorFacts.

Import Orchestrator.

Variable variant : Variant.
Variable subdomains : list string.
Variable verdict : string -> bool.
Variable output : bool.

Local Abbreviation step := (step variant subdomains verdict output).
Local Abbreviation run := (run variant subdomains verdict output).

Lemma nth_error_update_eq {A : Type} (l : list A) (i : nat) (x y : A) :
  nth_error l i = Some y -> nth_error (update i x l) i = Some x.
Proof.
  revert i. induction l as [|z l IH]; intros [|i] H; simpl in *;
    try discriminate; [reflexivity | now apply IH].
Qed.

Lemma nth_error_update_neq {A : Type} (l : list A) (i j : nat) (x : A) :
  i <> j -> nth_error (update j x l) i = nth_error l i.
Proof.
  revert i j. induction l as [|z l IH]; intros [|i] [|j] H; simpl;
    try reflexivity; [contradiction | apply IH; congruence].
Qed.

Lemma lockInvariant_initial : lockInvariant (initial subdomains).
Proof.
  split.
  - intros i pc H Hl. unfold initial in H. cbn [workers] in H.
    apply nth_error_In, in_map_iff in H as (d & <- & _). discriminate.
  - intros i H. discriminate.
Qed.

(** A step of worker [j] that keeps the mutex as it is and moves between
    two points that are both inside or both outside the locked region. *)
Lemma lockInvariant_same (s : State) (j : nat) (pc pc' : WorkerPC)
    (ws : list WorkerPC) (m : option nat) :
  lockInvariant s ->
  nth_error (workers s) j = Some pc ->
  holdsLock pc' = holdsLock pc ->
  ws = update j pc' (workers s) -> m = mu s ->
  (forall i p, nth_error ws i = Some p -> holdsLock p = true -> m = Some i)
  /\ (forall i, m = Some i ->
                exists p, nth_error ws i = Some p /\ holdsLock p = true).
Proof.
  intros [I1 I2] Hj Hh -> ->. split.
  - intros i p Hp Hl. destruct (Nat.eq_dec i j) as [->|Hne].
    + rewrite (nth_error_update_eq _ _ _ _ Hj) in Hp. injection Hp as <-.
      apply (I1 j pc Hj). congruence.
    + rewrite nth_error_update_neq in Hp by exact Hne. now apply (I1 i p).
  - intros i Hm. destruct (I2 i Hm) as (p & Hp & Hl).
    destruct (Nat.eq_dec i j) as [->|Hne].
    + exists pc'. split; [now apply (nth_error_update_eq _ _ _ pc) |].
      rewrite Hj in Hp. injection Hp as <-. congruence.
    + exists p. split; [| exact Hl].
      now rewrite nth_error_update_neq.
Qed.

Lemma lockInvariant_step (s s' : State) (g : Goroutine) :
  lockInvariant s -> step s g = Some s' -> lockInvariant s'.
Proof.
  intros Inv Hstep. destruct g as [j|]; cbn [Orchestrator.step] in Hstep.
  - destruct (nth_error (workers s) j) as [pc|] eqn:Hj; [| discriminate].
    destruct (nth_error subdomains j) as [d|]; [| discriminate].
    destruct pc; cbn [stepWorker setWorker] in Hstep;
      try (injection Hstep as <-;
           eapply lockInvariant_same;
           [exact Inv | exact Hj | | reflexivity | reflexivity];
           repeat match goal with
                  | |- context [if ?b then _ else _] => destruct b
                  | |- context [match ?v with InMemory => _ | _ => _ end] =>
                      destruct v
                  end; reflexivity).
    + (* Locking *)
      destruct (mu s) eqn:Hmu; [discriminate |]. injection Hstep as <-.
      destruct Inv as [I1 I2]. split; cbn [workers mu].
      * intros i p Hp Hl. destruct (Nat.eq_dec i j) as [->|Hne];
          [reflexivity |].
        rewrite nth_error_update_neq in Hp by exact Hne.
        rewrite (I1 i p Hp Hl) in Hmu. discriminate.
      * intros i [= <-]. exists Incrementing.
        split; [now apply (nth_error_update_eq _ _ _ Locking) | reflexivity].
    + (* Unlocking *)
      injection Hstep as <-.
      destruct Inv as [I1 I2]. split; cbn [workers mu].
      * intros i p Hp Hl. destruct (Nat.eq_dec i j) as [->|Hne].
        -- rewrite (nth_error_update_eq _ _ _ _ Hj) in Hp.
           injection Hp as <-. discriminate.
        -- rewrite nth_error_update_neq in Hp by exact Hne.
           pose proof (I1 i p Hp Hl) as Hi.
           pose proof (I1 j Unlocking Hj eq_refl) as Hjj.
           congruence.
      * intros i H. discriminate.
    + (* Sending *)
      destruct (reporting s); [| discriminate]. injection Hstep as <-.
      eapply lockInvariant_same;
        [exact Inv | exact Hj | | reflexivity | reflexivity]. reflexivity.
    + discriminate.
  - unfold stepMain in Hstep.
    destruct (mainPC s).
    + destruct (forallb isFinished (workers s)); [| discriminate].
      injection Hstep as <-. exact Inv.
    + destruct (reporting s); [| discriminate].
      injection Hstep as <-. exact Inv.
    + injection Hstep as <-. exact Inv.
    + discriminate.
Qed.

Lemma lockInvariant_run (schedule : list Goroutine) (s s' : State) :
  lockInvariant s -> run schedule s = Some s' -> lockInvariant s'.
Proof.
  revert s. induction schedule as [|g rest IH]; intros s Inv H;
    cbn [Orchestrator.run] in H.
  - now injection H as <-.
  - destruct (step s g) as [s1|] eqn:E; [| discriminate].
    apply (IH s1); [| exact H]. now apply (lockInvariant_step s s1 g).
Qed.

Lemma lockInvariant_reachable (s : State) :
  reachable variant subdomains verdict output s -> lockInvariant s.
Proof.
  intros [schedule H].
  apply (lockInvariant_run schedule (initial subdomains) s);
    [apply lockInvariant_initial | exact H].
Qed.

End OrchestratorFacts.

(** ** The claims about the goroutines of main *)

(** C1 on the first variant: with two candidates that both match, the
    schedule in which both workers read [validSubdomains] before either
    assigns the result of its [append] is a run of [main] that returns with
    both candidates scanned and the count at 2, and with the first candidate
    missing from [validSubdomains]. *)
Theorem matched_candidate_can_be_lost :
  Fixtures.bothMatch "http://a.test" = true
  /\ Fixtures.bothMatch "http://b.test" = true
  /\ Orchestrator.run Orchestrator.InMemory Fixtures.twoHosts
       Fixtures.bothMatch false Fixtures.bothLoadFirst
       (Orchestrator.initial Fixtures.twoHosts)
     = Some (Orchestrator.mkState
               [Orchestrator.Finished; Orchestrator.Finished]
               ["http://b.test"] None 2 [1%Z; 2%Z] false
               Orchestrator.Returned []).
Proof.
  repeat split; vm_compute; reflexivity.
Qed.

(** C8: with two candidates, the schedule in which worker 0 evaluates the
    operand of its send (the count 1) and worker 1 then increments,
    evaluates its operand (the count 2) and sends first is a run of [main]
    to its end in which the reporter receives 2 and then 1: the counts
    decrease and the last one is not the total. *)
Theorem progress_counts_can_decrease :
  Orchestrator.run Orchestrator.InMemory Fixtures.twoHosts Fixtures.bothMatch
    false Fixtures.overtakenSend (Orchestrator.initial Fixtures.twoHosts)
  = Some (Orchestrator.mkState
            [Orchestrator.Finished; Orchestrator.Finished]
            ["http://a.test"; "http://b.test"] None 2 [2%Z; 1%Z] false
            Orchestrator.Returned []).
Proof.
  vm_compute. reflexivity.
Qed.

(** * Further properties of the code *)

(** ** One candidate's scan as a whole *)

Section ScanAsAWhole.

Variable paths : list string.
Variable kw : string -> string.
Variables links form : string -> bool.
Variable Get : string -> GetResult.

Local Abbreviation iter := (iteration kw links form).
Local Abbreviation scan := (scanPaths kw links form Get).
Local Abbreviation hit := (pathMatches kw links form Get).

(** The two flags of the verdict after the loop, from a state in which
    nothing has been found. *)
Lemma scanPaths_verdict (subdomain : string) (ps : list string)
    (st : ScanState) :
  accountPortalFound st = false ->
  accountPortalFound (fst (scan subdomain ps st))
  && hasForm (fst (scan subdomain ps st))
  = existsb (hit subdomain) ps.
Proof.
  revert st. induction ps as [|p ps IH]; intros st Hst; cbn [scanPaths existsb].
  - cbn [fst]. now rewrite Hst.
  - unfold pathMatches at 1.
    rewrite (isBreak_iteration kw links form initialScan st).
    destruct (iter st (Get (probeURL subdomain p))) as [stc|stb] eqn:E;
      cbn [isBreak orb].
    + destruct (iteration_Continue _ _ _ _ _ _ E) as (Hf & _ & _).
      specialize (IH stc). rewrite Hf in IH. specialize (IH Hst).
      now destruct (scan subdomain ps stc).
    + destruct (iteration_Break _ _ _ _ _ _ E) as [Hf Hh].
      cbn [fst]. now rewrite Hf, Hh.
Qed.

(** The requests of the loop are those of an initial part of the list,
    all of it when the loop does not break. *)
Lemma scanPaths_requests (subdomain : string) (ps : list string)
    (st : ScanState) :
  exists k,
    k <= List.length ps
    /\ snd (scan subdomain ps st) = map (probeURL subdomain) (firstn k ps)
    /\ (existsb (hit subdomain) ps = false -> k = List.length ps)
    /\ (ps <> [] -> 1 <= k).
Proof.
  revert st. induction ps as [|p ps IH]; intros st; cbn [scanPaths existsb].
  - exists 0. repeat split; try reflexivity. intros H. now contradiction H.
  - unfold pathMatches at 1.
    rewrite (isBreak_iteration kw links form initialScan st).
    destruct (iter st (Get (probeURL subdomain p))) as [stc|stb] eqn:E;
      cbn [isBreak orb].
    + destruct (IH stc) as (k & Hk & Hr & Hall & _).
      exists (S k). destruct (scan subdomain ps stc) as [final reqs].
      cbn [snd firstn map List.length] in *.
      repeat split; [lia | now rewrite Hr | | lia].
      intros H. now rewrite (Hall H).
    + exists 1. cbn [snd firstn map List.length].
      split; [lia |]. split; [reflexivity |].
      split; [discriminate | lia].
Qed.

(** The method recorded by the loop when the link rule implies the
    keyword rule. *)
Lemma scanPaths_method (subdomain : string) (ps : list string)
    (st : ScanState) :
  (forall body, links body = true -> kw body <> "") ->
  accountPortalFound st = false ->
  detectionMethod st = "" ->
  let final := fst (scan subdomain ps st) in
  (accountPortalFound final = false /\ detectionMethod final = "")
  \/ (accountPortalFound final = true /\ hasForm final = true
      /\ detectionMethod final = KeywordWithForm
      /\ exists body, matchedKeyword final = kw body /\ kw body <> "").
Proof.
  intros Hdead. revert st.
  induction ps as [|p ps IH]; intros st Hf Hm; cbn [scanPaths].
  - left. now split.
  - destruct (iter st (Get (probeURL subdomain p))) as [stc|stb] eqn:E.
    + destruct (iteration_Continue _ _ _ _ _ _ E) as (Hf' & _ & Hm').
      specialize (IH stc). rewrite Hf', Hm' in IH. specialize (IH Hf Hm).
      now destruct (scan subdomain ps stc).
    + right. cbn [fst]. clear IH.
      destruct (Get (probeURL subdomain p)) as [|resp];
        cbn [iteration] in E; [discriminate |].
      destruct (statusRejected (StatusCode resp)); [discriminate |].
      destruct (Body resp) as [body|]; [| discriminate].
      destruct (GoStrings.len body >? 10000)%Z; [discriminate |].
      cbn [matchedKeyword setMatchedKeyword] in E.
      destruct (negb (kw body =? "")) eqn:Ek; cbn [andb] in E.
      * destruct (form body);
          [| destruct (links body); cbn [andb] in E; discriminate].
        injection E as <-. cbn. repeat split. exists body.
        split; [reflexivity |].
        apply negb_true_iff in Ek. now apply String.eqb_neq.
      * destruct (links body) eqn:El; cbn [andb] in E; [| discriminate].
        apply negb_false_iff, String.eqb_eq in Ek.
        now contradiction (Hdead body El).
Qed.

End ScanAsAWhole.

(** X1: the candidate is reported as matched exactly when some path of the
    list matches. *)
Theorem verdict_is_some_path_matching :
  forall (paths : list string) (kw : string -> string)
         (links form : string -> bool) (Get : string -> GetResult)
         (subdomain : string),
    checkSubdomain paths kw links form Get subdomain
    = existsb (pathMatches kw links form Get subdomain) paths.
Proof.
  intros. unfold checkSubdomain, scanState.
  now apply scanPaths_verdict.
Qed.

(** X2: the calls of [httpClient.Get] that [checkSubdomain] makes for a
    candidate are for the URLs of an initial part of the path list, in list
    order and one call for each path: at least one when the list is not
    empty, all of them when the candidate is not matched, and so never
    more than 11 calls in the first variant and 6 in the second.  What the
    client sends within one call, such as the requests of a chain of
    redirects that it follows, is not counted here. *)
Theorem requests_are_a_prefix_of_the_paths :
  forall (Get : string -> GetResult) (subdomain : string),
    (forall paths kw links form,
        exists k,
          k <= List.length paths
          /\ requests paths kw links form Get subdomain
             = map (probeURL subdomain) (firstn k paths)
          /\ (checkSubdomain paths kw links form Get subdomain = false ->
              k = List.length paths)
          /\ (paths <> [] -> 1 <= k))
    /\ List.length
         (requests V1.createAccountPaths V1.findMatchingKeyword
            V1.containsCreateAccountLinks V1.containsForm Get subdomain)
       <= 11
    /\ List.length
         (requests V2.createAccountPaths V2.findMatchingKeyword
            V2.containsCreateAccountLinks V2.containsForm Get subdomain)
       <= 6.
Proof.
  intros Get subdomain.
  assert (G : forall paths kw links form,
             exists k,
               k <= List.length paths
               /\ requests paths kw links form Get subdomain
                  = map (probeURL subdomain) (firstn k paths)
               /\ (checkSubdomain paths kw links form Get subdomain = false ->
                   k = List.length paths)
               /\ (paths <> [] -> 1 <= k)).
  { intros paths kw links form.
    unfold checkSubdomain, scanState, requests.
    rewrite scanPaths_verdict by reflexivity.
    apply scanPaths_requests. }
  split; [exact G |]. split.
  - destruct (G V1.createAccountPaths V1.findMatchingKeyword
                V1.containsCreateAccountLinks V1.containsForm)
      as (k & Hk & -> & _).
    rewrite length_map, length_firstn. cbn [V1.createAccountPaths List.length] in *.
    lia.
  - destruct (G V2.createAccountPaths V2.findMatchingKeyword
                V2.containsCreateAccountLinks V2.containsForm)
      as (k & Hk & -> & _).
    rewrite length_map, length_firstn. cbn [V2.createAccountPaths List.length] in *.
    lia.
Qed.

(** ** The link rule never decides *)

(** *** Lower-casing across an ASCII byte

    [strings.ToLower] reads code points, so in general the lower case of
    a text is not made of the lower cases of its parts.  It is when the
    parts meet at an ASCII byte, which is a code point of its own and part
    of no longer encoding. *)

Lemma ascii_not_second (c : ascii) (b0 : Z) :
  (UTF8.byte c < 128)%Z -> UTF8.acceptSecond b0 (UTF8.byte c) = false.
Proof.
  intros H. unfold UTF8.acceptSecond.
  repeat match goal with
         | |- context [if ?b then _ else _] => destruct b
         end;
    apply andb_false_iff; left; apply Z.leb_gt; lia.
Qed.

Lemma decode_shorter (c : ascii) (s : string) :
  String.length (snd (UTF8.DecodeRuneInString (String c s)))
  <= String.length s.
Proof.
  unfold UTF8.DecodeRuneInString.
  destruct (UTF8.byte c <? UTF8.RuneSelf)%Z; cbn [snd]; [lia |].
  destruct (UTF8.width (UTF8.byte c)) as [|[|[|[|[|w]]]]]; cbn [snd];
    try lia;
    destruct s as [|c1 [|c2 [|c3 s4]]]; cbn [snd String.length]; try lia;
    match goal with
    | |- context [if ?b then _ else _] => destruct b
    end; cbn [snd String.length]; lia.
Qed.

(** The first code point of a text that is followed by an ASCII byte. *)
Lemma decode_before_ascii (c0 : ascii) (a : string) (c : ascii) (b : string) :
  (UTF8.byte c < 128)%Z ->
  UTF8.DecodeRuneInString (String c0 a ++ String c b)
  = (fst (UTF8.DecodeRuneInString (String c0 a)),
     snd (UTF8.DecodeRuneInString (String c0 a)) ++ String c b).
Proof.
  intros Hc.
  pose proof (ascii_not_second c (UTF8.byte c0) Hc) as Hsecond.
  assert (Hcont : UTF8.continuation (UTF8.byte c) = false)
    by (unfold UTF8.continuation; apply andb_false_iff; left;
        apply Z.leb_gt; lia).
  cbn [String.append]. unfold UTF8.DecodeRuneInString.
  destruct (UTF8.byte c0 <? UTF8.RuneSelf)%Z; [reflexivity |].
  destruct (UTF8.width (UTF8.byte c0)) as [|[|[|[|[|w]]]]];
    try reflexivity;
    destruct a as [|c1 [|c2 [|c3 a4]]], b as [|d1 [|d2 b3]];
    cbn [String.append fst snd];
    rewrite ?Hsecond, ?Hcont, ?andb_false_r; cbn [andb fst snd];
    try reflexivity;
    match goal with
    | |- context [if ?t then _ else _] => destruct t
    end; reflexivity.
Qed.

Lemma mapRunes_fuel (mapping : Z -> Z) (fuel : nat) (s : string) :
  String.length s <= fuel ->
  GoStrings.mapRunes mapping fuel s
  = GoStrings.mapRunes mapping (String.length s) s.
Proof.
  revert s. induction fuel as [fuel IH] using lt_wf_ind. intros s Hlen.
  destruct s as [|c s]; [now destruct fuel |].
  destruct fuel as [|fuel]; [cbn [String.length] in Hlen; lia |].
  cbn [String.length] in *. cbn [GoStrings.mapRunes].
  pose proof (decode_shorter c s) as Hs.
  destruct (UTF8.DecodeRuneInString (String c s)) as [r rest].
  cbn [snd] in Hs.
  rewrite (IH fuel) by lia.
  now rewrite (IH (String.length s)) by lia.
Qed.

Lemma ToLower_step (c : ascii) (s : string) :
  GoStrings.ToLower (String c s)
  = UTF8.EncodeRune
      (Unicode.ToLower (fst (UTF8.DecodeRuneInString (String c s))))
    ++ GoStrings.ToLower (snd (UTF8.DecodeRuneInString (String c s))).
Proof.
  unfold GoStrings.ToLower. cbn [String.length GoStrings.mapRunes].
  pose proof (decode_shorter c s) as Hs.
  destruct (UTF8.DecodeRuneInString (String c s)) as [r rest].
  cbn [fst snd] in *. now rewrite mapRunes_fuel.
Qed.

Lemma ToLower_before_ascii (a : string) (c : ascii) (b : string) :
  (UTF8.byte c < 128)%Z ->
  GoStrings.ToLower (a ++ String c b)
  = GoStrings.ToLower a ++ GoStrings.ToLower (String c b).
Proof.
  intros Hc. remember (String.length a) as n eqn:Hn. revert a Hn.
  induction n as [n IH] using lt_wf_ind. intros a Hn.
  destruct a as [|c0 a]; [reflexivity |].
  change ((String c0 a ++ String c b)%string)
    with (String c0 (a ++ String c b)).
  rewrite (ToLower_step c0 (a ++ String c b)), (ToLower_step c0 a).
  change (String c0 (a ++ String c b))
    with ((String c0 a ++ String c b)%string).
  rewrite (decode_before_ascii c0 a c b Hc). cbn [fst snd].
  pose proof (decode_shorter c0 a) as Hs.
  rewrite (IH (String.length (snd (UTF8.DecodeRuneInString (String c0 a)))))
    with (a := snd (UTF8.DecodeRuneInString (String c0 a)));
    [| subst n; cbn [String.length]; lia | reflexivity].
  now rewrite append_assoc.
Qed.

Lemma ToLower_ascii (c : ascii) (s : string) :
  (UTF8.byte c < 128)%Z ->
  GoStrings.ToLower (String c s)
  = UTF8.EncodeRune (Unicode.ToLower (UTF8.byte c)) ++ GoStrings.ToLower s.
Proof.
  intros Hc. rewrite ToLower_step. unfold UTF8.DecodeRuneInString.
  unfold UTF8.RuneSelf.
  destruct (Z.ltb_spec (UTF8.byte c) 128); [reflexivity | lia].
Qed.

Lemma Contains_within (a s b k : string) :
  GoStrings.Contains s k = true ->
  GoStrings.Contains (a ++ s ++ b) k = true.
Proof.
  intros H. apply Contains_inv in H as (p & q & ->).
  replace (a ++ (p ++ k ++ q) ++ b) with ((a ++ p) ++ k ++ (q ++ b))
    by now rewrite !append_assoc.
  apply Contains_intro.
Qed.

(** A keyword found in a part that stands between two ASCII bytes is
    found in the whole text. *)
Lemma mentions_between_ascii (keywords : list string) (pre : string)
    (c1 : ascii) (s : string) (c2 : ascii) (post : string) :
  (UTF8.byte c1 < 128)%Z -> (UTF8.byte c2 < 128)%Z ->
  mentions keywords s ->
  mentions keywords (pre ++ String c1 (s ++ String c2 post)).
Proof.
  intros H1 H2 (k & Hin & Hc). exists k. split; [exact Hin |].
  rewrite (ToLower_before_ascii pre c1 _ H1), (ToLower_ascii c1 _ H1).
  rewrite (ToLower_before_ascii s c2 post H2).
  rewrite <- append_assoc. now apply Contains_within.
Qed.

Lemma mentions_incl (ks ks' : list string) (text : string) :
  incl ks ks' -> mentions ks text -> mentions ks' text.
Proof.
  intros Hincl (k & Hin & Hc). exists k. split; [now apply Hincl | exact Hc].
Qed.

Lemma V2_keywords_not_empty (k : string) :
  In k V2.keywords -> k <> "".
Proof.
  unfold V2.keywords. intros Hk.
  repeat (destruct Hk as [<- | Hk]; [discriminate |]). contradiction.
Qed.

(** First variant: the captured [href] value and anchor text are parts of
    the body that stand between ASCII bytes (the quotes, [>] and [<]), so
    a keyword found in one of them is found in the body. *)
Lemma V1_link_hit_has_keyword (body : string) :
  V1.containsCreateAccountLinks body = true ->
  V1.findMatchingKeyword body <> "".
Proof.
  intros H.
  apply containsCreateAccountLinks_anchor in H
    as (pre & a1 & Hv & a2 & T & post & -> & _ & _ & Hm).
  apply mentions_firstKeyword; [exact V1_keywords_not_empty |].
  destruct Hm as [Hm | Hm].
  - replace (pre ++ "<a" ++ a1 ++ "href=" ++ GoStrings.dq ++ Hv ++ GoStrings.dq
               ++ a2 ++ ">" ++ T ++ "</a>" ++ post)
      with ((pre ++ "<a" ++ a1 ++ "href=")
              ++ String GoStrings.dquote
                   (Hv ++ String GoStrings.dquote
                            (a2 ++ ">" ++ T ++ "</a>" ++ post))).
    + apply mentions_between_ascii; [vm_compute | vm_compute |];
        trivial.
    + unfold GoStrings.dq.
      repeat (rewrite append_assoc || cbn [String.append]). reflexivity.
  - replace (pre ++ "<a" ++ a1 ++ "href=" ++ GoStrings.dq ++ Hv ++ GoStrings.dq
               ++ a2 ++ ">" ++ T ++ "</a>" ++ post)
      with ((pre ++ "<a" ++ a1 ++ "href=" ++ GoStrings.dq ++ Hv ++ GoStrings.dq
               ++ a2)
              ++ String ">"%char (T ++ String "<"%char ("/a>" ++ post))).
    + apply mentions_between_ascii; [vm_compute | vm_compute |];
        trivial.
    + repeat (rewrite append_assoc || cbn [String.append]). reflexivity.
Qed.

(** Second variant: the link words are among the keywords. *)
Lemma V2_link_hit_has_keyword (body : string) :
  V2.containsCreateAccountLinks body = true ->
  V2.findMatchingKeyword body <> "".
Proof.
  intros H. apply anyLink_mentions in H.
  apply mentions_firstKeyword; [exact V2_keywords_not_empty |].
  apply (mentions_incl V2.links); [| exact H].
  unfold V2.links, V2.keywords. intros k Hk. cbn in Hk |- *. tauto.
Qed.

Lemma firstKeyword_In (keywords : list string) (body : string) :
  V1.firstKeyword keywords body <> "" ->
  In (V1.firstKeyword keywords body) keywords.
Proof.
  induction keywords as [|k ks IH]; cbn [V1.firstKeyword]; intros H;
    [contradiction |].
  destruct (GoStrings.Contains (GoStrings.ToLower body) k);
    [now left | right; now apply IH].
Qed.

(** X3: in the first variant the link-or-button rule never decides a
    scan: every body with a link hit also has a keyword hit, and the
    keyword rule is tried first.  So a scan ends either not matched, with
    no method recorded, or matched by the keyword rule with one of the
    keywords; the method of the link rule is never recorded. *)
Theorem V1_link_rule_never_decides :
  forall (Get : string -> GetResult) (subdomain : string),
    let st := scanState V1.createAccountPaths V1.findMatchingKeyword
                V1.containsCreateAccountLinks V1.containsForm Get subdomain in
    (V1.checkSubdomain Get subdomain = false /\ detectionMethod st = "")
    \/ (V1.checkSubdomain Get subdomain = true
        /\ detectionMethod st = KeywordWithForm
        /\ In (matchedKeyword st) V1.createAccountKeywords).
Proof.
  intros Get subdomain st. subst st.
  unfold V1.checkSubdomain, checkSubdomain, scanState.
  destruct (scanPaths_method V1.findMatchingKeyword
              V1.containsCreateAccountLinks V1.containsForm Get subdomain
              V1.createAccountPaths initialScan V1_link_hit_has_keyword
              eq_refl eq_refl)
    as [[Hf Hm] | (Hf & Hh & Hm & body & Hk & Hne)].
  - left. now rewrite Hf.
  - right. rewrite Hf, Hh, Hm, Hk.
    repeat split. now apply firstKeyword_In.
Qed.

(** X4: the same in the second variant, whose link words are four of its
    five keywords: a scan ends either not matched, with no method
    recorded, or matched by the keyword rule with one of the keywords. *)
Theorem V2_link_rule_never_decides :
  forall (Get : string -> GetResult) (subdomain : string),
    let st := scanState V2.createAccountPaths V2.findMatchingKeyword
                V2.containsCreateAccountLinks V2.containsForm Get subdomain in
    (V2.checkSubdomain Get subdomain = false /\ detectionMethod st = "")
    \/ (V2.checkSubdomain Get subdomain = true
        /\ detectionMethod st = KeywordWithForm
        /\ In (matchedKeyword st) V2.keywords).
Proof.
  intros Get subdomain st. subst st.
  unfold V2.checkSubdomain, checkSubdomain, scanState.
  destruct (scanPaths_method V2.findMatchingKeyword
              V2.containsCreateAccountLinks V2.containsForm Get subdomain
              V2.createAccountPaths initialScan V2_link_hit_has_keyword
              eq_refl eq_refl)
    as [[Hf Hm] | (Hf & Hh & Hm & body & Hk & Hne)].
  - left. now rewrite Hf.
  - right. rewrite Hf, Hh, Hm, Hk.
    repeat split. now apply firstKeyword_In.
Qed.

(** ** What a matched candidate has served *)

Lemma pathMatches_iff (kw : string -> string) (links form : string -> bool)
    (Get : string -> GetResult) (subdomain path : string) :
  pathMatches kw links form Get subdomain path = true <->
  exists resp body,
    Get (probeURL subdomain path) = GetOK resp
    /\ statusAccepted (StatusCode resp) = true
    /\ Body resp = Some body
    /\ (GoStrings.len body <= 10000)%Z
    /\ form body = true
    /\ (kw body <> "" \/ links body = true).
Proof.
  unfold pathMatches, statusAccepted.
  destruct (Get (probeURL subdomain path)) as [|resp]; cbn [iteration isBreak].
  { split; [discriminate | intros (r & b & H & _); discriminate]. }
  destruct (statusRejected (StatusCode resp)) eqn:Es; cbn [isBreak negb].
  { split; [discriminate | intros (r & b & [= <-] & H & _)].
    rewrite Es in H. discriminate. }
  destruct (Body resp) as [body|] eqn:Eb; cbn [isBreak].
  2:{ split; [discriminate | intros (r & b & [= <-] & _ & H & _)].
      rewrite Eb in H. discriminate. }
  destruct (Z.gtb_spec (GoStrings.len body) 10000) as [Hl|Hl]; cbn [isBreak].
  { split; [discriminate | intros (r & b & [= <-] & _ & H & Hb & _)].
    rewrite Eb in H. injection H as <-. lia. }
  cbn [matchedKeyword setMatchedKeyword].
  assert (Hiff : form body = true /\ (kw body <> "" \/ links body = true) <->
                 exists r b,
                   GetOK resp = GetOK r
                   /\ negb (statusRejected (StatusCode r)) = true
                   /\ Body r = Some b
                   /\ (GoStrings.len b <= 10000)%Z
                   /\ form b = true
                   /\ (kw b <> "" \/ links b = true)).
  { split.
    - intros [Hf Hk]. exists resp, body. rewrite Es.
      repeat split; try assumption; try reflexivity.
    - intros (r & b & [= <-] & _ & H & _ & Hf & Hk).
      rewrite Eb in H. injection H as <-. now split. }
  rewrite <- Hiff. clear Hiff.
  destruct (String.eqb_spec (kw body) "") as [Ek|Ek],
           (links body), (form body); cbn [negb andb isBreak];
    intuition congruence.
Qed.

(** X5: the first variant reports a candidate as matched exactly when,
    for one of its eleven paths, [httpClient.Get] returns a response with
    an accepted status (200, or one whose decimal form starts with 3) and
    a body that can be read, is at most 10,000 bytes long, contains one of
    the eleven keywords once it is lower-cased by [strings.ToLower], and
    contains [<form] with a [>] somewhere after it. *)
Theorem V1_matched_iff_some_path_serves_a_portal :
  forall (Get : string -> GetResult) (subdomain : string),
    V1.checkSubdomain Get subdomain = true <->
    exists path resp body,
      In path V1.createAccountPaths
      /\ Get (subdomain ++ "/" ++ path) = GetOK resp
      /\ statusAccepted (StatusCode resp) = true
      /\ Body resp = Some body
      /\ (GoStrings.len body <= 10000)%Z
      /\ mentions V1.createAccountKeywords body
      /\ exists pre rest,
           body = pre ++ "<form" ++ rest
           /\ GoStrings.Contains rest ">" = true.
Proof.
  intros Get subdomain. unfold V1.checkSubdomain, checkSubdomain, scanState.
  rewrite scanPaths_verdict by reflexivity.
  rewrite existsb_exists. split.
  - intros (path & Hin & Hm).
    apply pathMatches_iff in Hm as (resp & body & HG & Hs & Hb & Hl & Hf & Hk).
    exists path, resp, body. repeat split; try assumption.
    + apply firstKeyword_mentions.
      destruct Hk as [Hk | Hk]; [exact Hk | now apply V1_link_hit_has_keyword].
    + now apply containsForm_regex.
  - intros (path & resp & body & Hin & HG & Hs & Hb & Hl & Hk & Hf).
    exists path. split; [exact Hin |].
    apply pathMatches_iff. exists resp, body. repeat split; try assumption.
    + now apply containsForm_regex.
    + left. apply mentions_firstKeyword; [exact V1_keywords_not_empty | exact Hk].
Qed.

(** X6: the second variant reports a candidate as matched exactly when,
    for one of its six paths, [httpClient.Get] returns a response with an
    accepted status (200, or one whose decimal form starts with 3) and a
    body that can be read, is at most 10,000 bytes long, contains one of
    the five keywords once it is lower-cased by [strings.ToLower], and
    contains [<form]. *)
Theorem V2_matched_iff_some_path_serves_a_portal :
  forall (Get : string -> GetResult) (subdomain : string),
    V2.checkSubdomain Get subdomain = true <->
    exists path resp body,
      In path V2.createAccountPaths
      /\ Get (subdomain ++ "/" ++ path) = GetOK resp
      /\ statusAccepted (StatusCode resp) = true
      /\ Body resp = Some body
      /\ (GoStrings.len body <= 10000)%Z
      /\ mentions V2.keywords body
      /\ exists pre rest, body = pre ++ "<form" ++ rest.
Proof.
  intros Get subdomain. unfold V2.checkSubdomain, checkSubdomain, scanState.
  rewrite scanPaths_verdict by reflexivity.
  rewrite existsb_exists. split.
  - intros (path & Hin & Hm).
    apply pathMatches_iff in Hm as (resp & body & HG & Hs & Hb & Hl & Hf & Hk).
    exists path, resp, body. repeat split; try assumption.
    + apply firstKeyword_mentions.
      destruct Hk as [Hk | Hk]; [exact Hk | now apply V2_link_hit_has_keyword].
    + now apply containsForm_substring.
  - intros (path & resp & body & Hin & HG & Hs & Hb & Hl & Hk & Hf).
    exists path. split; [exact Hin |].
    apply pathMatches_iff. exists resp, body. repeat split; try assumption.
    + now apply containsForm_substring.
    + left. apply mentions_firstKeyword; [exact V2_keywords_not_empty | exact Hk].
Qed.

(** ** The keyword that is reported *)

Lemma firstKeyword_spec (keywords : list string) (body : string) :
  (V1.firstKeyword keywords body = ""
   /\ forall k, In k keywords ->
                GoStrings.Contains (GoStrings.ToLower body) k = false)
  \/ (exists pre post,
        keywords = (pre ++ V1.firstKeyword keywords body :: post)%list
        /\ GoStrings.Contains (GoStrings.ToLower body)
             (V1.firstKeyword keywords body) = true
        /\ forall k, In k pre ->
                     GoStrings.Contains (GoStrings.ToLower body) k = false).
Proof.
  induction keywords as [|k ks IH]; cbn [V1.firstKeyword].
  - left. split; [reflexivity | intros k []].
  - destruct (GoStrings.Contains (GoStrings.ToLower body) k) eqn:E.
    + right. exists [], ks. repeat split; [exact E | intros k' []].
    + destruct IH as [[H0 Hall] | (pre & post & Hks & Hc & Hpre)].
      * left. split; [exact H0 |]. intros k' [<- | Hk']; [exact E | now apply Hall].
      * right. exists (k :: pre), post. repeat split.
        -- cbn [List.app]. now rewrite <- Hks.
        -- exact Hc.
        -- intros k' [<- | Hk']; [exact E | now apply Hpre].
Qed.

(** X7: the keyword that is reported for a body is the first keyword, in
    the order of the keyword list, that the body lower-cased by
    [strings.ToLower] contains, wherever the keywords stand in the body;
    it is empty exactly when the lower-cased body contains none of them.
    This holds for the keyword list of either variant. *)
Theorem reported_keyword_is_first_in_list_order :
  forall body : string,
    let first keywords found :=
      (found = ""
       /\ forall k, In k keywords ->
                    GoStrings.Contains (GoStrings.ToLower body) k = false)
      \/ (found <> ""
          /\ exists pre post,
               keywords = (pre ++ found :: post)%list
               /\ GoStrings.Contains (GoStrings.ToLower body) found = true
               /\ forall k, In k pre ->
                    GoStrings.Contains (GoStrings.ToLower body) k = false) in
    first V1.createAccountKeywords (V1.findMatchingKeyword body)
    /\ first V2.keywords (V2.findMatchingKeyword body).
Proof.
  intros body first. subst first. cbv beta.
  unfold V1.findMatchingKeyword, V2.findMatchingKeyword. split.
  - destruct (firstKeyword_spec V1.createAccountKeywords body)
      as [H | (pre & post & Hks & Hc & Hpre)]; [now left | right].
    split; [| now exists pre, post].
    apply V1_keywords_not_empty. rewrite Hks at 2.
    apply in_or_app. right. now left.
  - destruct (firstKeyword_spec V2.keywords body)
      as [H | (pre & post & Hks & Hc & Hpre)]; [now left | right].
    split; [| now exists pre, post].
    apply V2_keywords_not_empty. rewrite Hks at 2.
    apply in_or_app. right. now left.
Qed.

(** ** The redirect target that is reported *)

(** [redirectURL] after one pass. *)
Lemma iteration_redirectURL (kw : string -> string)
    (links form : string -> bool) (st : ScanState) (r : GetResult) :
  redirectURL (flowState (iteration kw links form st r))
  = match r with
    | GetOK resp =>
        if (300 <=? StatusCode resp)%Z && (StatusCode resp <? 400)%Z
        then Location resp else redirectURL st
    | GetError => redirectURL st
    end.
Proof.
  destruct r as [|resp]; cbn [iteration flowState]; [reflexivity |].
  destruct ((300 <=? StatusCode resp)%Z && (StatusCode resp <? 400)%Z);
    (destruct (statusRejected (StatusCode resp)); [reflexivity |]);
    (destruct (Body resp) as [body|]; [| reflexivity]);
    (destruct (GoStrings.len body >? 10000)%Z; [reflexivity |]);
    (destruct (negb _ && form body); [reflexivity |]);
    (destruct (links body && form body); reflexivity).
Qed.

(** X8: the redirect target reported for a candidate is the [Location]
    header of the last response with a status from 300 to 399 that
    [httpClient.Get] returned in the scan, whatever the classification of
    that response was, and the empty string when no call returned such a
    response; a later such response without the header resets it to the
    empty string.  A redirect that the client follows within a call is
    not seen by the loop. *)
Theorem redirect_is_location_of_last_3xx :
  forall (paths : list string) (kw : string -> string)
         (links form : string -> bool) (Get : string -> GetResult)
         (subdomain : string),
    redirectURL (scanState paths kw links form Get subdomain)
    = fold_left
        (fun target url =>
           match Get url with
           | GetOK resp =>
               if (300 <=? StatusCode resp)%Z && (StatusCode resp <? 400)%Z
               then Location resp else target
           | GetError => target
           end)
        (requests paths kw links form Get subdomain) "".
Proof.
  intros paths kw links form Get subdomain. unfold scanState, requests.
  change (fold_left ?f ?l "") with (fold_left f l (redirectURL initialScan)).
  generalize initialScan as st.
  induction paths as [|p ps IH]; intros st; cbn [scanPaths]; [reflexivity |].
  pose proof (iteration_redirectURL kw links form st
                (Get (probeURL subdomain p))) as Hr.
  destruct (iteration kw links form st (Get (probeURL subdomain p)))
    as [stc|stb]; cbn [flowState] in Hr.
  - specialize (IH stc).
    destruct (scanPaths kw links form Get subdomain ps stc) as [final reqs].
    cbn [fst snd fold_left] in *. now rewrite IH, Hr.
  - cbn [fst snd fold_left]. exact Hr.
Qed.

(** ** The goroutines of main: counting, termination and the output *)

Section UpdateFacts.

Import Orchestrator.

Context {A : Type}.

Lemma length_update (l : list A) (i : nat) (x : A) :
  List.length (update i x l) = List.length l.
Proof.
  revert i. induction l as [|y l IH]; intros [|i]; cbn [update List.length];
    try reflexivity. now rewrite IH.
Qed.

Lemma filter_update (p : A -> bool) (l : list A) (i : nat) (x y : A) :
  nth_error l i = Some y ->
  List.length (filter p (update i x l)) + (if p y then 1 else 0)
  = List.length (filter p l) + (if p x then 1 else 0).
Proof.
  revert i. induction l as [|z l IH]; intros [|i] H;
    cbn [nth_error update filter] in *; try discriminate.
  - injection H as ->. destruct (p x), (p y); cbn [List.length]; lia.
  - specialize (IH i H). destruct (p z); cbn [List.length]; lia.
Qed.

Lemma list_sum_update (f : A -> nat) (l : list A) (i : nat) (x y : A) :
  nth_error l i = Some y ->
  list_sum (map f (update i x l)) + f y = list_sum (map f l) + f x.
Proof.
  unfold list_sum.
  revert i. induction l as [|z l IH]; intros [|i] H;
    cbn [nth_error update map fold_right] in *; try discriminate.
  - injection H as ->. lia.
  - specialize (IH i H). lia.
Qed.

Lemma forallb_nth_error (p : A -> bool) (l : list A) (i : nat) (x : A) :
  forallb p l = true -> nth_error l i = Some x -> p x = true.
Proof.
  intros Hall Hx. rewrite forallb_forall in Hall.
  apply Hall. now apply (nth_error_In l i).
Qed.

Lemma filter_all (p : A -> bool) (l : list A) :
  forallb p l = true -> filter p l = l.
Proof.
  induction l as [|x l IH]; cbn [forallb filter]; [reflexivity |].
  intros H. apply andb_prop in H as [Hx Hl]. now rewrite Hx, IH.
Qed.

Lemma filter_length_le (p : A -> bool) (l : list A) :
  List.length (filter p l) <= List.length l.
Proof.
  induction l as [|x l IH]; cbn [filter List.length]; [lia |].
  destruct (p x); cbn [List.length]; lia.
Qed.

Lemma filter_nth_error_pos (p : A -> bool) (l : list A) (i : nat) (x : A) :
  nth_error l i = Some x -> p x = true -> 1 <= List.length (filter p l).
Proof.
  intros Hx Hp. apply nth_error_In in Hx.
  assert (Hin : In x (filter p l)) by (apply filter_In; now split).
  destruct (filter p l); [contradiction | cbn [List.length]; lia].
Qed.

End UpdateFacts.

Section AccountingFacts.

Import Orchestrator.
Import Accounting.

Variable variant : Variant.
Variable subdomains : list string.
Variable verdict : string -> bool.
Variable output : bool.

Local Abbreviation step := (step variant subdomains verdict output).
Local Abbreviation run := (run variant subdomains verdict output).
Local Abbreviation reachable := (reachable variant subdomains verdict output).
Local Abbreviation total := (List.length subdomains).

Lemma count_update (p : WorkerPC -> bool) (ws : list WorkerPC) (i : nat)
    (pc pc' : WorkerPC) :
  nth_error ws i = Some pc ->
  count p (update i pc' ws)
  = (count p ws - Z.b2z (p pc) + Z.b2z (p pc'))%Z.
Proof.
  intros H. unfold count. pose proof (filter_update p ws i pc' pc H) as E.
  destruct (p pc), (p pc'); cbn [Z.b2z]; lia.
Qed.

Lemma count_bounds (p : WorkerPC -> bool) (ws : list WorkerPC) :
  (0 <= count p ws <= Z.of_nat (List.length ws))%Z.
Proof.
  unfold count. pose proof (filter_length_le p ws). lia.
Qed.

(** A property of every state that [run] reaches from one that has it. *)
Lemma run_invariant (P : State -> Prop) :
  (forall s s' g, P s -> step s g = Some s' -> P s') ->
  forall schedule s s', P s -> run schedule s = Some s' -> P s'.
Proof.
  intros Hstep schedule.
  induction schedule as [|g rest IH]; intros s s' HP H;
    cbn [Orchestrator.run] in H.
  - now injection H as <-.
  - destruct (step s g) as [s1|] eqn:E; [| discriminate].
    apply (IH s1); [| exact H]. now apply (Hstep s s1 g).
Qed.

(** *** Every step brings its goroutine nearer to its end *)

Lemma step_measure (s s' : State) (g : Goroutine) :
  step s g = Some s' -> measure s' < measure s.
Proof.
  intros Hstep. unfold measure.
  destruct g as [j|]; cbn [Orchestrator.step] in Hstep.
  - destruct (nth_error (workers s) j) as [pc|] eqn:Hj; [| discriminate].
    destruct (nth_error subdomains j) as [d|]; [| discriminate].
    assert (G : forall pc', workerRank pc' < workerRank pc ->
                list_sum (map workerRank (update j pc' (workers s)))
                < list_sum (map workerRank (workers s))).
    { intros pc' Hlt.
      pose proof (list_sum_update workerRank (workers s) j pc' pc Hj). lia. }
    destruct pc; cbn [stepWorker setWorker] in Hstep;
      repeat match type of Hstep with
             | context [if ?b then _ else _] => destruct b
             | context [match ?v with InMemory => _ | _ => _ end] => destruct v
             | context [match mu s with Some _ => _ | None => _ end] =>
                 destruct (mu s)
             end;
      try discriminate; injection Hstep as <-; cbn [workers mainPC];
      apply Nat.add_lt_mono_r, G; cbn [workerRank]; lia.
  - unfold stepMain in Hstep.
    destruct (mainPC s);
      repeat match type of Hstep with
             | context [if ?b then _ else _] => destruct b
             end;
      try discriminate; injection Hstep as <-; cbn [workers mainPC mainRank];
      try destruct variant; cbn [mainRank]; lia.
Qed.

Lemma run_measure (schedule : list Goroutine) (s s' : State) :
  run schedule s = Some s' ->
  List.length schedule + measure s' <= measure s.
Proof.
  revert s. induction schedule as [|g rest IH]; intros s H;
    cbn [Orchestrator.run List.length] in *.
  - injection H as <-. lia.
  - destruct (step s g) as [s1|] eqn:E; [| discriminate].
    specialize (IH s1 H). pose proof (step_measure s s1 g E). lia.
Qed.

Lemma measure_initial : measure (initial subdomains) = 8 * total + 3.
Proof.
  unfold measure, initial. cbn [workers mainPC mainRank].
  rewrite map_map. cbn [workerRank]. unfold list_sum.
  induction subdomains as [|d ds IH];
    cbn [map fold_right List.length] in *; lia.
Qed.

(** *** The counter and the counts *)

Lemma counting_initial : counting total (initial subdomains).
Proof.
  assert (Hnone : forall p, (forall pc, p pc = true -> pc <> Scanning) ->
                  filter p (map (fun _ : string => Scanning) subdomains) = []).
  { intros p Hp. induction subdomains as [|d ds IH]; cbn [map filter];
      [reflexivity |].
    destruct (p Scanning) eqn:E; [now contradiction (Hp Scanning E) | exact IH]. }
  constructor; unfold initial; cbn [workers progress shown].
  - apply length_map.
  - unfold count. rewrite Hnone; [reflexivity |].
    intros pc Hpc ->. discriminate.
  - unfold count. rewrite Hnone; [reflexivity |].
    intros pc Hpc ->. discriminate.
  - intros c [].
  - intros i c H. apply nth_error_In, in_map_iff in H as (d & H & _).
    discriminate.
  - destruct subdomains; [now left | right; left; cbn [List.length]; lia].
Qed.

(** The last clause of [counting] across a step of worker [j]. *)
Lemma counting_total_move (s : State) (j : nat) (pc pc' : WorkerPC)
    (progress' : Z) (shown' : list Z) :
  counting total s ->
  nth_error (workers s) j = Some pc ->
  (progress' = progress s \/ pc' = Unlocking) ->
  (forall c, In c (shown s) -> In c shown') ->
  (carries (Z.of_nat total) pc = true ->
   carries (Z.of_nat total) pc' = true
   \/ (progress' < Z.of_nat total)%Z
   \/ In (Z.of_nat total) shown') ->
  total = 0
  \/ (progress' < Z.of_nat total)%Z
  \/ (exists i p, nth_error (update j pc' (workers s)) i = Some p
                  /\ carries (Z.of_nat total) p = true)
  \/ In (Z.of_nat total) shown'.
Proof.
  intros [Hw Hp Hs Hr Hf Ht] Hj Hprog Hshown Hcarry.
  assert (Hnew : nth_error (update j pc' (workers s)) j = Some pc')
    by now apply (nth_error_update_eq _ _ _ pc).
  destruct Hprog as [-> | ->];
    [| right; right; left; exists j, Unlocking; now split].
  destruct Ht as [H0 | [Hlt | [(i & p & Hi & Hc) | Hin]]].
  - now left.
  - right. now left.
  - destruct (Nat.eq_dec i j) as [->|Hne].
    + rewrite Hj in Hi. injection Hi as <-.
      destruct (Hcarry Hc) as [H | [H | H]].
      * right; right; left. exists j, pc'. now split.
      * right. now left.
      * now repeat right.
    + right; right; left. exists i, p.
      split; [now rewrite nth_error_update_neq | exact Hc].
  - repeat right. now apply Hshown.
Qed.

Lemma counting_step (s s' : State) (g : Goroutine) :
  counting total s -> step s g = Some s' -> counting total s'.
Proof.
  intros Inv Hstep. pose proof Inv as [Hw Hp Hs Hr Hf Ht].
  destruct g as [j|]; cbn [Orchestrator.step] in Hstep.
  - destruct (nth_error (workers s) j) as [pc|] eqn:Hj; [| discriminate].
    destruct (nth_error subdomains j) as [d|]; [| discriminate].
    pose proof (count_bounds counted (workers s)) as Hb. rewrite Hw in Hb.
    destruct pc; cbn [stepWorker setWorker] in Hstep;
      repeat match type of Hstep with
             | context [if ?b then _ else _] => destruct b
             | context [match ?v with InMemory => _ | _ => _ end] => destruct v
             | context [match mu s with Some _ => _ | None => _ end] =>
                 destruct (mu s)
             end;
      try discriminate; injection Hstep as <-;
      (constructor; unfold setWorker; cbn [workers progress shown];
       [ now rewrite length_update
       | rewrite (count_update counted _ _ _ _ Hj); cbn [counted Z.b2z]; lia
       | rewrite (count_update isFinished _ _ _ _ Hj);
         try rewrite length_app; cbn [isFinished Z.b2z List.length]; lia
       | intros c0 Hc;
         first [ apply in_app_or in Hc as [Hc | [<- | []]];
                 [apply Hr in Hc; lia | apply (Hf j) in Hj; lia]
               | apply Hr in Hc; lia ]
       | intros i c0 Hi; destruct (Nat.eq_dec i j) as [->|Hne];
         [ rewrite (nth_error_update_eq _ _ _ _ Hj) in Hi;
           try discriminate; injection Hi as <-;
           pose proof (filter_nth_error_pos counted _ _ _ Hj eq_refl);
           unfold count in Hp; lia
         | rewrite nth_error_update_neq in Hi by exact Hne;
           apply Hf in Hi; lia ]
       | apply (counting_total_move s j _ _ _ _ Inv Hj);
         [ first [left; reflexivity | right; reflexivity]
         | intros c0 Hc; try apply in_or_app; auto
         | cbn [carries]; intros Hc; try discriminate Hc ] ]).
    + (* Unlocking: the worker still carries the count *)
      now left.
    + (* Reading: the operand is the total, or the counter is below it *)
      destruct (Z.eqb_spec (progress s) (Z.of_nat total)); [now left | right].
      left. lia.
    + (* Sending: the total has been received *)
      right; right. apply Z.eqb_eq in Hc as ->.
      apply in_or_app. right. now left.
  - unfold stepMain in Hstep.
    destruct (mainPC s);
      repeat match type of Hstep with
             | context [if ?b then _ else _] => destruct b
             end;
      try discriminate; injection Hstep as <-;
      now constructor.
Qed.

Lemma counting_reachable (s : State) : reachable s -> counting total s.
Proof.
  intros [schedule H].
  apply (run_invariant (counting total) counting_step schedule
           (initial subdomains) s counting_initial H).
Qed.

(** *** The main goroutine and the reporter *)

Lemma sequencing_step (s s' : State) (g : Goroutine) :
  sequencing s -> step s g = Some s' -> sequencing s'.
Proof.
  intros [Hrep Hfin] Hstep.
  destruct g as [j|]; cbn [Orchestrator.step] in Hstep.
  - destruct (nth_error (workers s) j) as [pc|] eqn:Hj; [| discriminate].
    destruct (nth_error subdomains j) as [d|]; [| discriminate].
    assert (Hpc : pc <> Finished) by (intros ->; discriminate).
    assert (Hwait : mainPC s = Waiting).
    { destruct (mainPC s) eqn:E; [reflexivity | exfalso ..];
        apply Hpc;
        (assert (Hall : forallb isFinished (workers s) = true)
          by (apply Hfin; discriminate));
        pose proof (forallb_nth_error isFinished _ _ _ Hall Hj) as F;
        destruct pc; try discriminate F; reflexivity. }
    assert (Hsame : reporting s' = reporting s /\ mainPC s' = mainPC s).
    { destruct pc; cbn [stepWorker setWorker] in Hstep;
        repeat match type of Hstep with
               | context [if ?b then _ else _] => destruct b eqn:?
               | context [match ?v with InMemory => _ | _ => _ end] =>
                   destruct v
               | context [match mu s with Some _ => _ | None => _ end] =>
                   destruct (mu s)
               end;
        try discriminate; injection Hstep as <-; now split. }
    destruct Hsame as [Hr' Hm']. split.
    + now rewrite Hr', Hm'.
    + rewrite Hm', Hwait. intros H. now contradiction H.
  - unfold stepMain in Hstep.
    destruct (mainPC s) eqn:E.
    + destruct (forallb isFinished (workers s)) eqn:Hall; [| discriminate].
      injection Hstep as <-. split; [exact Hrep | intros _; exact Hall].
    + destruct (reporting s); [| discriminate]. injection Hstep as <-.
      cbn [reporting mainPC workers]. split.
      * now destruct variant.
      * intros _. apply Hfin. discriminate.
    + injection Hstep as <-. cbn [reporting mainPC workers].
      split; [exact Hrep | intros _; apply Hfin; discriminate].
    + discriminate.
Qed.

Lemma sequencing_reachable (s : State) : reachable s -> sequencing s.
Proof.
  intros [schedule H].
  apply (run_invariant sequencing sequencing_step schedule
           (initial subdomains) s); [| exact H].
  split; [reflexivity | intros Hne; now contradiction Hne].
Qed.

(** *** Only matched candidates are recorded *)

Lemma sound_step (s s' : State) (g : Goroutine) :
  sound subdomains verdict s -> step s g = Some s' ->
  sound subdomains verdict s'.
Proof.
  intros [Hv Hf Hp] Hstep.
  destruct g as [j|]; cbn [Orchestrator.step] in Hstep.
  - destruct (nth_error (workers s) j) as [pc|] eqn:Hj; [| discriminate].
    destruct (nth_error subdomains j) as [d|] eqn:Hd; [| discriminate].
    pose proof (Hp j pc d Hj Hd) as Hpc.
    assert (Hin : In d subdomains) by now apply (nth_error_In _ j).
    destruct pc; cbn [stepWorker setWorker] in Hstep;
      repeat match type of Hstep with
             | context [if ?b then _ else _] => destruct b eqn:?
             | context [match ?v with InMemory => _ | _ => _ end] => destruct v
             | context [match mu s with Some _ => _ | None => _ end] =>
                 destruct (mu s)
             end;
      try discriminate; injection Hstep as <-;
      (constructor; unfold setWorker; cbn [workers validSubdomains file];
       [ try exact Hv
       | try exact Hf
       | intros i pc0 d0 Hi Hd0; destruct (Nat.eq_dec i j) as [->|Hne];
         [ rewrite (nth_error_update_eq _ _ _ _ Hj) in Hi;
           injection Hi as <-; rewrite Hd in Hd0; injection Hd0 as <-;
           try exact I; try assumption; try (split; assumption)
         | rewrite nth_error_update_neq in Hi by exact Hne;
           now apply (Hp i pc0 d0) ] ]).
    + (* Storing: the assignment of append(old, subdomain) *)
      destruct Hpc as [Hd1 Hold]. intros d' Hd'.
      apply in_app_or in Hd' as [Hd' | [<- | []]];
        [now apply Hold | now split].
    + (* Writing: the line of a matched candidate *)
      intros l Hl. apply in_app_or in Hl as [Hl | [<- | []]];
        [now apply Hf |]. exists d. split; [reflexivity | now split].
  - unfold stepMain in Hstep.
    destruct (mainPC s);
      repeat match type of Hstep with
             | context [if ?b then _ else _] => destruct b
             end;
      try discriminate; injection Hstep as <-;
      constructor; cbn [workers validSubdomains file]; try assumption.
    intros l Hl. apply in_map_iff in Hl as (d & <- & Hd).
    exists d. split; [reflexivity | now apply Hv].
Qed.

Lemma sound_reachable (s : State) :
  reachable s -> sound subdomains verdict s.
Proof.
  intros [schedule H].
  apply (run_invariant (sound subdomains verdict) sound_step schedule
           (initial subdomains) s); [| exact H].
  constructor; unfold initial; cbn [workers validSubdomains file].
  - intros d [].
  - intros l [].
  - intros i pc d Hi _. apply nth_error_In, in_map_iff in Hi as (d' & <- & _).
    exact I.
Qed.

(** *** What the second variant has written *)







(** *** Some goroutine can always take a step *)

Lemma step_enabled (s : State) :
  lockInvariant s -> counting total s -> sequencing s ->
  mainPC s <> Returned ->
  exists g s', step s g = Some s'.
Proof.
  intros [L1 L2] [Hw _ _ _ _ _] [Hrep Hfin] Hnot.
  destruct (forallb isFinished (workers s)) eqn:Hall.
  - exists Main. cbn [Orchestrator.step]. unfold stepMain.
    destruct (mainPC s) eqn:E.
    + rewrite Hall. eauto.
    + rewrite Hrep. eauto.
    + eauto.
    + now contradiction Hnot.
  - assert (Hwait : mainPC s = Waiting).
    { destruct (mainPC s); [reflexivity | ..];
        (assert (F : false = true) by (apply Hfin; discriminate));
        discriminate F. }
    rewrite Hwait in Hrep.
    assert (Hex : exists j pc, nth_error (workers s) j = Some pc
                               /\ isFinished pc = false).
    { clear -Hall. induction (workers s) as [|w ws IH];
        cbn [forallb] in Hall; [discriminate |].
      destruct (isFinished w) eqn:E.
      - destruct (IH Hall) as (j & pc & Hj & Hpc). now exists (S j), pc.
      - now exists 0, w. }
    destruct Hex as (j & pc & Hj & Hpc).
    assert (Hd : exists d, nth_error subdomains j = Some d).
    { destruct (nth_error subdomains j) as [d|] eqn:E; [now exists d |].
      apply nth_error_None in E.
      assert (j < List.length (workers s))
        by (apply nth_error_Some; congruence).
      lia. }
    destruct Hd as [d Hd].
    assert (Hrun : forall i p, nth_error (workers s) i = Some p ->
                     holdsLock p = true ->
                     exists s', step s (Worker i) = Some s').
    { intros i p Hi Hl.
      assert (Hdi : exists d', nth_error subdomains i = Some d').
      { destruct (nth_error subdomains i) as [d'|] eqn:E; [now exists d' |].
        apply nth_error_None in E.
        assert (i < List.length (workers s))
          by (apply nth_error_Some; congruence).
        lia. }
      destruct Hdi as [d' Hd'].
      cbn [Orchestrator.step]. rewrite Hi, Hd'.
      destruct p; try discriminate Hl; cbn [stepWorker]; eauto. }
    destruct pc; try discriminate Hpc;
      try (exists (Worker j); cbn [Orchestrator.step]; rewrite Hj, Hd;
           cbn [stepWorker]; rewrite ?Hrep; eauto; fail).
    (* Locking: the worker itself, or the holder of the mutex *)
    destruct (mu s) as [i|] eqn:Hmu.
    + destruct (L2 i eq_refl) as (p & Hi & Hl).
      destruct (Hrun i p Hi Hl) as [s' Hs']. now exists (Worker i), s'.
    + exists (Worker j). cbn [Orchestrator.step]. rewrite Hj, Hd.
      cbn [stepWorker]. rewrite Hmu. eauto.
Qed.

End AccountingFacts.

(** ** The mutex and the output sink *)

Section PlacedFacts.

Import Orchestrator.
Import Accounting.

Variable variant : Variant.
Variable subdomains : list string.
Variable verdict : string -> bool.
Variable output : bool.

Local Abbreviation step := (step variant subdomains verdict output).

Lemma placed_step (s s' : State) (g : Goroutine) :
  placed variant s -> step s g = Some s' -> placed variant s'.
Proof.
  intros [Hw Hm] Hstep.
  destruct g as [j|]; cbn [Orchestrator.step] in Hstep.
  - destruct (nth_error (workers s) j) as [pc|] eqn:Hj; [| discriminate].
    destruct (nth_error subdomains j) as [d|]; [| discriminate].
    assert (G : forall pc',
               (pc' = Writing -> variant = AppendFile) ->
               forall i, nth_error (update j pc' (workers s)) i = Some Writing ->
                         variant = AppendFile).
    { intros pc' Hpc' i Hi. destruct (Nat.eq_dec i j) as [->|Hne].
      - rewrite (nth_error_update_eq _ _ _ _ Hj) in Hi.
        injection Hi as ->. now apply Hpc'.
      - rewrite nth_error_update_neq in Hi by exact Hne. now apply (Hw i). }
    destruct pc; cbn [stepWorker] in Hstep; unfold setWorker in Hstep;
      repeat match type of Hstep with
             | context [if ?b then _ else _] => destruct b
             | context [match ?v with InMemory => _ | _ => _ end] =>
                 destruct v eqn:?
             | context [match mu s with Some _ => _ | None => _ end] =>
                 destruct (mu s)
             end;
      try discriminate; injection Hstep as <-;
      (split; cbn [workers mainPC]; [apply G | exact Hm]);
      intros E; try discriminate E; reflexivity.
  - unfold stepMain in Hstep.
    destruct (mainPC s) eqn:E;
      repeat match type of Hstep with
             | context [if ?b then _ else _] => destruct b
             end;
      try discriminate; injection Hstep as <-;
      (split; cbn [workers mainPC]; [exact Hw |]);
      try (intros F; discriminate F).
    intros _. reflexivity.
Qed.

Lemma placed_reachable (s : State) :
  reachable variant subdomains verdict output s -> placed variant s.
Proof.
  intros [schedule H].
  apply (run_invariant variant subdomains verdict output (placed variant)
           placed_step schedule (initial subdomains) s); [| exact H].
  unfold initial. split; cbn [workers mainPC].
  - intros i Hi. apply nth_error_In, in_map_iff in Hi as (d & Hd & _).
    discriminate.
  - discriminate.
Qed.

End PlacedFacts.

(** C9, as the code has it: in every reachable state, a step that changes
    the progress counter is a step of a worker that holds the mutex, and it
    adds one to the counter; a step that writes to the output file is
    either a step of a worker of the second variant, made while that worker
    does not hold the mutex, or the step of the main goroutine of the first
    variant, made when every worker has finished. *)
Theorem increments_hold_the_mutex :
  forall (variant : Orchestrator.Variant) (subdomains : list string)
         (verdict : string -> bool) (output : bool)
         (s s' : Orchestrator.State) (g : Orchestrator.Goroutine),
    Orchestrator.reachable variant subdomains verdict output s ->
    Orchestrator.step variant subdomains verdict output s g = Some s' ->
    (Orchestrator.progress s' <> Orchestrator.progress s ->
     exists i, g = Orchestrator.Worker i
               /\ Orchestrator.mu s = Some i
               /\ Orchestrator.progress s' = (Orchestrator.progress s + 1)%Z)
    /\ (Orchestrator.file s' <> Orchestrator.file s ->
        (exists i, g = Orchestrator.Worker i
                   /\ variant = Orchestrator.AppendFile
                   /\ Orchestrator.mu s <> Some i)
        \/ (g = Orchestrator.Main
            /\ variant = Orchestrator.InMemory
            /\ forallb Orchestrator.isFinished (Orchestrator.workers s)
               = true)).
Proof.
  intros variant subdomains verdict output s s' g Hreach Hstep.
  pose proof (lockInvariant_reachable _ _ _ _ _ Hreach) as [I1 I2].
  pose proof (placed_reachable _ _ _ _ _ Hreach) as [Pw Pm].
  pose proof (sequencing_reachable _ _ _ _ _ Hreach) as [_ Hfin].
  destruct g as [j|]; cbn [Orchestrator.step] in Hstep.
  - destruct (nth_error (Orchestrator.workers s) j) as [pc|] eqn:Hj;
      [| discriminate].
    destruct (nth_error subdomains j) as [d|]; [| discriminate].
    split.
    + intros Hp. exists j. split; [reflexivity |].
      destruct pc; cbn [Orchestrator.stepWorker Orchestrator.setWorker] in Hstep;
        try (injection Hstep as <-; now contradiction Hp).
      * destruct (Orchestrator.mu s); [discriminate |].
        injection Hstep as <-. now contradiction Hp.
      * injection Hstep as <-. split; [| reflexivity].
        now apply (I1 j Orchestrator.Incrementing).
      * destruct (Orchestrator.reporting s); [| discriminate].
        injection Hstep as <-. now contradiction Hp.
      * discriminate.
    + intros Hf. left. exists j. split; [reflexivity |].
      assert (Hpc : pc = Orchestrator.Writing).
      { destruct pc; try reflexivity;
          cbn [Orchestrator.stepWorker Orchestrator.setWorker] in Hstep;
          repeat match type of Hstep with
                 | context [if ?b then _ else _] => destruct b
                 | context [match Orchestrator.mu s with
                            | Some _ => _ | None => _ end] =>
                     destruct (Orchestrator.mu s)
                 end;
          try discriminate; injection Hstep as <-; now contradiction Hf. }
      subst pc. split; [now apply (Pw j) |].
      intros Hmu. destruct (I2 j Hmu) as (pc' & Hj' & Hl).
      rewrite Hj in Hj'. injection Hj' as <-. discriminate.
  - split.
    + intros Hp. unfold Orchestrator.stepMain in Hstep.
      destruct (Orchestrator.mainPC s).
      * destruct (forallb Orchestrator.isFinished (Orchestrator.workers s));
          [| discriminate].
        injection Hstep as <-. now contradiction Hp.
      * destruct (Orchestrator.reporting s); [| discriminate].
        injection Hstep as <-. now contradiction Hp.
      * injection Hstep as <-. now contradiction Hp.
      * discriminate.
    + intros Hf. right. split; [reflexivity |].
      unfold Orchestrator.stepMain in Hstep.
      destruct (Orchestrator.mainPC s) eqn:E.
      * destruct (forallb Orchestrator.isFinished (Orchestrator.workers s));
          [| discriminate].
        injection Hstep as <-. now contradiction Hf.
      * destruct (Orchestrator.reporting s); [| discriminate].
        injection Hstep as <-. now contradiction Hf.
      * split; [now apply Pm | apply Hfin; discriminate].
      * discriminate.
Qed.

Lemma increments_hold_the_mutex_witness :
  Orchestrator.mu
    (Orchestrator.mkState [Orchestrator.Incrementing; Orchestrator.Scanning]
       ["http://a.test"] (Some 0) 0 [] true Orchestrator.Waiting [])
  = Some 0.
Proof.
  destruct (increments_hold_the_mutex Orchestrator.InMemory Fixtures.twoHosts
              Fixtures.bothMatch false
              (Orchestrator.mkState
                 [Orchestrator.Incrementing; Orchestrator.Scanning]
                 ["http://a.test"] (Some 0) 0 [] true Orchestrator.Waiting [])
              (Orchestrator.mkState
                 [Orchestrator.Unlocking; Orchestrator.Scanning]
                 ["http://a.test"] (Some 0) 1 [] true Orchestrator.Waiting [])
              (Orchestrator.Worker 0))
    as [Hinc _].
  - exists [Orchestrator.Worker 0; Orchestrator.Worker 0;
            Orchestrator.Worker 0; Orchestrator.Worker 0].
    vm_compute. reflexivity.
  - vm_compute. reflexivity.
  - destruct Hinc as (i & Hg & Hmu & _); [vm_compute; discriminate |].
    injection Hg as <-. exact Hmu.
Defined.

(** C9 as stated fails: a worker writes its line to the output file
    (second variant), and assigns the result of its [append] to
    [validSubdomains] (first variant), while another worker holds the mutex
    and it does not. *)
Lemma mutation_outside_the_mutex :
  (exists s s',
      Orchestrator.run Orchestrator.AppendFile Fixtures.twoHosts
        Fixtures.bothMatchV2 true Fixtures.writeWhileLocked
        (Orchestrator.initial Fixtures.twoHosts) = Some s
      /\ Orchestrator.step Orchestrator.AppendFile Fixtures.twoHosts
           Fixtures.bothMatchV2 true s (Orchestrator.Worker 1) = Some s'
      /\ Orchestrator.mu s = Some 0
      /\ Orchestrator.file s
         = ["http://a.test" ++ String GoStrings.newline ""]
      /\ Orchestrator.file s'
         = ["http://a.test" ++ String GoStrings.newline "";
            "http://b.test" ++ String GoStrings.newline ""])
  /\ (exists s s',
         Orchestrator.run Orchestrator.InMemory Fixtures.twoHosts
           Fixtures.bothMatch false Fixtures.appendWhileLocked
           (Orchestrator.initial Fixtures.twoHosts) = Some s
         /\ Orchestrator.step Orchestrator.InMemory Fixtures.twoHosts
              Fixtures.bothMatch false s (Orchestrator.Worker 1) = Some s'
         /\ Orchestrator.mu s = Some 0
         /\ Orchestrator.validSubdomains s = ["http://a.test"]
         /\ Orchestrator.validSubdomains s'
            = ["http://a.test"; "http://b.test"]).
Proof.
  split; eexists; eexists; repeat split; vm_compute; reflexivity.
Qed.

(** X9: mutual exclusion.  In every reachable state of [main], in either
    variant, two different workers are never both between [mu.Lock()] and
    [mu.Unlock()]. *)
Theorem at_most_one_worker_holds_the_mutex :
  forall (variant : Orchestrator.Variant) (subdomains : list string)
         (verdict : string -> bool) (output : bool)
         (s : Orchestrator.State) (i j : nat)
         (pci pcj : Orchestrator.WorkerPC),
    Orchestrator.reachable variant subdomains verdict output s ->
    nth_error (Orchestrator.workers s) i = Some pci ->
    nth_error (Orchestrator.workers s) j = Some pcj ->
    i <> j ->
    Orchestrator.holdsLock pci && Orchestrator.holdsLock pcj = false.
Proof.
  intros variant subdomains verdict output s i j pci pcj Hreach Hi Hj Hne.
  apply lockInvariant_reachable in Hreach as [L1 _].
  destruct (Orchestrator.holdsLock pci) eqn:Ei; [| reflexivity].
  destruct (Orchestrator.holdsLock pcj) eqn:Ej; [| reflexivity].
  pose proof (L1 i pci Hi Ei) as H1. pose proof (L1 j pcj Hj Ej) as H2.
  congruence.
Qed.

Lemma at_most_one_worker_holds_the_mutex_witness :
  Orchestrator.holdsLock Orchestrator.Incrementing
  && Orchestrator.holdsLock Orchestrator.Locking = false.
Proof.
  apply (at_most_one_worker_holds_the_mutex Orchestrator.InMemory
           Fixtures.twoHosts Fixtures.bothMatch false
           (Orchestrator.mkState
              [Orchestrator.Incrementing; Orchestrator.Locking]
              ["http://a.test"; "http://b.test"] (Some 0) 0 [] true
              Orchestrator.Waiting [])
           0 1).
  - exists [Orchestrator.Worker 0; Orchestrator.Worker 0;
            Orchestrator.Worker 0; Orchestrator.Worker 0;
            Orchestrator.Worker 1; Orchestrator.Worker 1;
            Orchestrator.Worker 1].
    vm_compute. reflexivity.
  - reflexivity.
  - reflexivity.
  - lia.
Defined.

(** X10: the counter and the display.  In every reachable state the
    progress counter is the number of workers that have run [progress++],
    so it lies between 0 and the number of candidates; the reporter has
    received one count from each finished worker and no other; and every
    count it has received lies between 1 and the number of candidates. *)
Theorem counts_are_within_the_total :
  forall (variant : Orchestrator.Variant) (subdomains : list string)
         (verdict : string -> bool) (output : bool) (s : Orchestrator.State),
    Orchestrator.reachable variant subdomains verdict output s ->
    Orchestrator.progress s
    = Accounting.count Accounting.counted (Orchestrator.workers s)
    /\ (0 <= Orchestrator.progress s <= Z.of_nat (List.length subdomains))%Z
    /\ Z.of_nat (List.length (Orchestrator.shown s))
       = Accounting.count Orchestrator.isFinished (Orchestrator.workers s)
    /\ List.length (Orchestrator.shown s) <= List.length subdomains
    /\ forall c, In c (Orchestrator.shown s) ->
                 (1 <= c <= Z.of_nat (List.length subdomains))%Z.
Proof.
  intros variant subdomains verdict output s Hreach.
  apply counting_reachable in Hreach as [Hw Hp Hs Hr Hf Ht].
  pose proof (count_bounds Accounting.counted (Orchestrator.workers s)) as B1.
  pose proof (count_bounds Orchestrator.isFinished (Orchestrator.workers s))
    as B2.
  rewrite Hw in B1, B2.
  repeat split; try assumption; try lia.
  - apply Hr in H. lia.
  - apply Hr in H. lia.
Qed.

Lemma counts_are_within_the_total_witness : (1 <= 1 <= 2)%Z.
Proof.
  assert (R : Orchestrator.reachable Orchestrator.InMemory Fixtures.twoHosts
                Fixtures.bothMatch false
                (Orchestrator.mkState
                   [Orchestrator.Finished; Orchestrator.Finished]
                   ["http://a.test"; "http://b.test"] None 2 [2%Z; 1%Z] false
                   Orchestrator.Returned []))
    by (exists Fixtures.overtakenSend; vm_compute; reflexivity).
  destruct (counts_are_within_the_total _ _ _ _ _ R) as (_ & _ & _ & _ & H).
  apply (H 1%Z). right. now left.
Defined.

(** X11: the end of [main].  When [main] has returned, every worker has
    finished, the mutex is free, the counter equals the number of
    candidates, the reporter has stopped after receiving exactly that many
    counts, and the total itself is among the counts it received (though
    not always as the last one). *)
Theorem main_returns_with_all_candidates_counted :
  forall (variant : Orchestrator.Variant) (subdomains : list string)
         (verdict : string -> bool) (output : bool) (s : Orchestrator.State),
    Orchestrator.reachable variant subdomains verdict output s ->
    Orchestrator.mainPC s = Orchestrator.Returned ->
    Orchestrator.workers s
    = map (fun _ => Orchestrator.Finished) subdomains
    /\ Orchestrator.mu s = None
    /\ Orchestrator.reporting s = false
    /\ Orchestrator.progress s = Z.of_nat (List.length subdomains)
    /\ List.length (Orchestrator.shown s) = List.length subdomains
    /\ (subdomains <> [] ->
        In (Z.of_nat (List.length subdomains)) (Orchestrator.shown s)).
Proof.
  intros variant subdomains verdict output s Hreach Hret.
  pose proof (lockInvariant_reachable _ _ _ _ _ Hreach) as [L1 L2].
  pose proof (sequencing_reachable _ _ _ _ _ Hreach) as [Hrep Hfin].
  pose proof (counting_reachable _ _ _ _ _ Hreach) as [Hw Hp Hs Hr Hf Ht].
  assert (Hall : forallb Orchestrator.isFinished (Orchestrator.workers s) = true)
    by (apply Hfin; rewrite Hret; discriminate).
  assert (Hcounted : Accounting.count Accounting.counted (Orchestrator.workers s)
                     = Z.of_nat (List.length subdomains)).
  { unfold Accounting.count. rewrite filter_all; [now rewrite Hw |].
    rewrite forallb_forall in Hall |- *. intros pc Hpc.
    specialize (Hall pc Hpc). now destruct pc. }
  assert (Hfinished : Accounting.count Orchestrator.isFinished
                        (Orchestrator.workers s)
                      = Z.of_nat (List.length subdomains)).
  { unfold Accounting.count. now rewrite filter_all, Hw. }
  split; [| split; [| split; [| split; [| split]]]].
  - clear -Hall Hw. revert Hw Hall.
    generalize (Orchestrator.workers s) as ws.
    induction subdomains as [|d ds IH]; intros [|w ws] Hlen Hall;
      cbn [List.length map forallb] in *; try discriminate; [reflexivity |].
    apply andb_prop in Hall as [Hw0 Hall]. injection Hlen as Hlen.
    rewrite (IH ws Hlen Hall). now destruct w.
  - destruct (Orchestrator.mu s) as [i|] eqn:Hmu; [| reflexivity].
    destruct (L2 i eq_refl) as (pc & Hi & Hl).
    pose proof (forallb_nth_error _ _ _ _ Hall Hi) as F.
    destruct pc; discriminate.
  - now rewrite Hrep, Hret.
  - now rewrite Hp.
  - lia.
  - intros Hne.
    destruct Ht as [H0 | [Hlt | [(i & pc & Hi & Hc) | Hin]]].
    + destruct subdomains; [now contradiction Hne | discriminate].
    + lia.
    + pose proof (forallb_nth_error _ _ _ _ Hall Hi) as F.
      destruct pc; discriminate.
    + exact Hin.
Qed.

Lemma main_returns_with_all_candidates_counted_witness :
  In 2%Z [2%Z; 1%Z].
Proof.
  apply (main_returns_with_all_candidates_counted Orchestrator.InMemory
           Fixtures.twoHosts Fixtures.bothMatch false
           (Orchestrator.mkState
              [Orchestrator.Finished; Orchestrator.Finished]
              ["http://a.test"; "http://b.test"] None 2 [2%Z; 1%Z] false
              Orchestrator.Returned [])).
  - exists Fixtures.overtakenSend. vm_compute. reflexivity.
  - reflexivity.
  - discriminate.
Defined.

(** X12: no deadlock.  In every reachable state in which [main] has not
    returned, some goroutine can take a step: a worker is never blocked
    for good on the mutex or on the progress channel, nor is [main] on the
    wait group or on the channel that stops the reporter. *)
Theorem some_goroutine_can_always_step :
  forall (variant : Orchestrator.Variant) (subdomains : list string)
         (verdict : string -> bool) (output : bool) (s : Orchestrator.State),
    Orchestrator.reachable variant subdomains verdict output s ->
    Orchestrator.mainPC s <> Orchestrator.Returned ->
    exists g s',
      Orchestrator.step variant subdomains verdict output s g = Some s'.
Proof.
  intros variant subdomains verdict output s Hreach Hnot.
  apply step_enabled; [| | | exact Hnot].
  - now apply (lockInvariant_reachable variant subdomains verdict output).
  - now apply (counting_reachable variant subdomains verdict output).
  - now apply (sequencing_reachable variant subdomains verdict output).
Qed.

Lemma some_goroutine_can_always_step_witness :
  exists g s',
    Orchestrator.step Orchestrator.AppendFile Fixtures.twoHosts
      Fixtures.bothMatchV2 true
      (Orchestrator.mkState
         [Orchestrator.Incrementing; Orchestrator.Locking] [] (Some 0) 0 []
         true Orchestrator.Waiting
         ["http://a.test" ++ String GoStrings.newline "";
          "http://b.test" ++ String GoStrings.newline ""])
      g
    = Some s'.
Proof.
  apply some_goroutine_can_always_step.
  - exists [Orchestrator.Worker 0; Orchestrator.Worker 0;
            Orchestrator.Worker 0; Orchestrator.Worker 1;
            Orchestrator.Worker 1].
    vm_compute. reflexivity.
  - discriminate.
Defined.

(** X13: termination.  A run of [main] over n candidates takes at most
    8n + 3 steps, whatever the schedule: eight for each worker and three
    for the main goroutine. *)
Theorem runs_are_bounded :
  forall (variant : Orchestrator.Variant) (subdomains : list string)
         (verdict : string -> bool) (output : bool)
         (schedule : list Orchestrator.Goroutine) (s : Orchestrator.State),
    Orchestrator.run variant subdomains verdict output schedule
      (Orchestrator.initial subdomains) = Some s ->
    List.length schedule + Accounting.measure s
    <= 8 * List.length subdomains + 3.
Proof.
  intros variant subdomains verdict output schedule s Hrun.
  rewrite <- measure_initial.
  now apply (run_measure variant subdomains verdict output).
Qed.

Lemma runs_are_bounded_witness :
  List.length Fixtures.bothLoadFirst
  + Accounting.measure
      (Orchestrator.mkState
         [Orchestrator.Finished; Orchestrator.Finished]
         ["http://b.test"] None 2 [1%Z; 2%Z] false
         Orchestrator.Returned [])
  <= 8 * List.length Fixtures.twoHosts + 3.
Proof.
  apply (runs_are_bounded Orchestrator.InMemory Fixtures.twoHosts
           Fixtures.bothMatch false).
  vm_compute. reflexivity.
Defined.

(** X14: the second variant writes nothing but matches.  In every
    reachable state of the second variant, every line written to the
    output file is a candidate of the list for which [checkSubdomain]
    returned true, followed by a line feed. *)
Theorem second_variant_writes_only_matches :
  forall (subdomains : list string) (verdict : string -> bool)
         (output : bool) (s : Orchestrator.State) (l : string),
    Orchestrator.reachable Orchestrator.AppendFile subdomains verdict
      output s ->
    In l (Orchestrator.file s) ->
    exists d, l = d ++ String GoStrings.newline ""
              /\ In d subdomains /\ verdict d = true.
Proof.
  intros subdomains verdict output s l Hreach Hl.
  apply sound_reachable in Hreach as [_ Hf _].
  destruct (Hf l Hl) as (d & -> & Hd). now exists d.
Qed.

Lemma second_variant_writes_only_matches_witness :
  exists d, "http://a.test" ++ String GoStrings.newline ""
            = d ++ String GoStrings.newline ""
            /\ In d Fixtures.twoHosts /\ Fixtures.bothMatchV2 d = true.
Proof.
  apply (second_variant_writes_only_matches Fixtures.twoHosts
           Fixtures.bothMatchV2 true
           (Orchestrator.mkState
              [Orchestrator.Locking; Orchestrator.Scanning] [] None 0 []
              true Orchestrator.Waiting
              ["http://a.test" ++ String GoStrings.newline ""])).
  - exists [Orchestrator.Worker 0; Orchestrator.Worker 0].
    vm_compute. reflexivity.
  - now left.
Defined.



(** ** The progress display *)

Lemma V2_frame_in_range (c : Z) :
  (0 <= c)%Z ->
  Indicator.V2.frame c
  = Some (nth (Z.to_nat (c mod 4)) Indicator.V2.animations "").
Proof.
  intros Hc. unfold Indicator.V2.frame.
  cbn [Indicator.V2.animations List.length]. change (Z.of_nat 4) with 4%Z.
  rewrite Z.rem_mod_nonneg by lia.
  pose proof (Z.mod_pos_bound c 4 ltac:(lia)) as Hb.
  destruct (Z.ltb_spec (c mod 4) 0) as [Hlt|_]; [lia |].
  assert (Hn : Z.to_nat (c mod 4) < 4) by lia.
  destruct (Z.to_nat (c mod 4)) as [|[|[|[|n]]]]; try reflexivity. lia.
Qed.

(** X16: the progress display of the second variant never fails.  Its
    frame is chosen by [progress % 4], which would be out of range for a
    negative count; on the counts that the reporter receives in a run of
    [main] the index is in range, and the reporter prints, for each count
    c received, the line with frame number c mod 4, c and the total. *)
Theorem second_variant_display_never_panics :
  forall (subdomains : list string) (verdict : string -> bool)
         (output : bool) (s : Orchestrator.State),
    Orchestrator.reachable Orchestrator.AppendFile subdomains verdict
      output s ->
    Indicator.V2.animatedIndicator (Z.of_nat (List.length subdomains))
      (Orchestrator.shown s)
    = Some (map (fun c =>
                   Indicator.V2.display (Z.of_nat (List.length subdomains)) c
                     (nth (Z.to_nat (c mod 4)) Indicator.V2.animations ""))
              (Orchestrator.shown s)).
Proof.
  intros subdomains verdict output s Hreach.
  apply counting_reachable in Hreach as [_ _ _ Hr _ _].
  induction (Orchestrator.shown s) as [|c cs IH];
    cbn [Indicator.V2.animatedIndicator map]; [reflexivity |].
  rewrite V2_frame_in_range by (specialize (Hr c (or_introl eq_refl)); lia).
  rewrite IH; [reflexivity |]. intros c' Hc'. apply Hr. now right.
Qed.

Lemma second_variant_display_never_panics_witness :
  Indicator.V2.animatedIndicator 2 [1%Z; 2%Z]
  = Some [Indicator.V2.display 2 1 "/"; Indicator.V2.display 2 2 "-"].
Proof.
  apply (second_variant_display_never_panics Fixtures.twoHosts
           Fixtures.bothMatchV2 true
           (Orchestrator.mkState
              [Orchestrator.Finished; Orchestrator.Finished] [] None 2
              [1%Z; 2%Z] false Orchestrator.Returned
              ["http://b.test" ++ String GoStrings.newline "";
               "http://a.test" ++ String GoStrings.newline ""])).
  exists ([Orchestrator.Worker 0; Orchestrator.Worker 1;
           Orchestrator.Worker 1; Orchestrator.Worker 0]
          ++ repeat (Orchestrator.Worker 0) 5
          ++ repeat (Orchestrator.Worker 1) 5
          ++ [Orchestrator.Main; Orchestrator.Main])%list.
  vm_compute. reflexivity.
Defined.

(** ** The candidate list on disk *)

Section FileFacts.

Import Files.

Lemma newline_dot (c : ascii) :
  Regexp.dot c = negb (Ascii.eqb c GoStrings.newline).
Proof. reflexivity. Qed.

Lemma MaxScanTokenSize_pos : 0 < MaxScanTokenSize.
Proof. unfold MaxScanTokenSize. lia. Qed.

(** One line and its line feed, for the scanner. *)
Lemma scanLines_line (d rest pending : string) :
  Regexp.every Regexp.dot d = true ->
  String.length (pending ++ d) < MaxScanTokenSize ->
  scanLines (d ++ String GoStrings.newline rest) pending
  = match scanLines rest "" with
    | Some tokens => Some (dropCR (pending ++ d) :: tokens)
    | None => None
    end.
Proof.
  revert pending. induction d as [|c d IH]; intros pending Hd Hlen;
    cbn [String.append scanLines Regexp.every] in *.
  - rewrite Ascii.eqb_refl. now rewrite append_empty_r.
  - apply andb_prop in Hd as [Hc Hd]. rewrite newline_dot in Hc.
    apply negb_true_iff in Hc. rewrite Hc.
    rewrite length_append in Hlen. cbn [String.length] in Hlen.
    destruct (Nat.leb_spec MaxScanTokenSize (String.length pending + 1));
      [lia |].
    rewrite (IH (pending ++ String c "") Hd).
    + now rewrite append_assoc.
    + rewrite append_assoc. cbn [String.append].
      rewrite length_append. cbn [String.length]. lia.
Qed.

Lemma scanLines_unlines (lines : list string) :
  (forall d, In d lines ->
             Regexp.every Regexp.dot d = true
             /\ dropCR d = d
             /\ String.length d < MaxScanTokenSize) ->
  scanLines (unlines lines) "" = Some lines.
Proof.
  induction lines as [|d ds IH]; intros H; cbn [unlines]; [reflexivity |].
  destruct (H d (or_introl eq_refl)) as (Hd & Hcr & Hlen).
  rewrite (scanLines_line d (unlines ds) "" Hd Hlen).
  rewrite IH by (intros d' Hd'; apply H; now right).
  cbn [String.append]. now rewrite Hcr.
Qed.

Lemma writeLines_all (fails : nat -> bool) (k : nat) (lines : list string)
    (content : string) :
  (forall i, fails i = false) ->
  V1.writeLines fails k lines content = (content ++ unlines lines, true).
Proof.
  intros Hok. revert k content.
  induction lines as [|d ds IH]; intros k content; cbn [V1.writeLines unlines].
  - now rewrite append_empty_r.
  - rewrite Hok, IH. now rewrite !append_assoc.
Qed.

(** One part and its separator, for [Split]. *)
Lemma splitFrom_line (d rest pending : string) :
  Regexp.every Regexp.dot d = true ->
  splitFrom GoStrings.newline (d ++ String GoStrings.newline rest) pending
  = (pending ++ d) :: splitFrom GoStrings.newline rest "".
Proof.
  revert pending. induction d as [|c d IH]; intros pending Hd;
    cbn [String.append splitFrom Regexp.every] in *.
  - rewrite Ascii.eqb_refl. now rewrite append_empty_r.
  - apply andb_prop in Hd as [Hc Hd]. rewrite newline_dot in Hc.
    apply negb_true_iff in Hc. rewrite Hc.
    rewrite (IH (pending ++ String c "") Hd). now rewrite append_assoc.
Qed.

Lemma Split_unlines (lines : list string) :
  (forall d, In d lines -> Regexp.every Regexp.dot d = true) ->
  Split (unlines lines) GoStrings.newline = (lines ++ [""])%list.
Proof.
  unfold Split.
  induction lines as [|d ds IH]; intros H; cbn [unlines]; [reflexivity |].
  rewrite splitFrom_line by (apply H; now left).
  rewrite IH by (intros d' Hd'; apply H; now right).
  reflexivity.
Qed.

(** The parts are one more than the separators, and hold none. *)
Lemma splitFrom_length (sep : ascii) (data pending : string) :
  List.length (splitFrom sep data pending)
  = S (List.length (filter (Ascii.eqb sep) (list_ascii_of_string data))).
Proof.
  revert pending. induction data as [|c data IH]; intros pending;
    cbn [splitFrom list_ascii_of_string filter]; [reflexivity |].
  rewrite (Ascii.eqb_sym sep c).
  destruct (Ascii.eqb c sep); cbn [List.length]; now rewrite IH.
Qed.

Lemma every_append (cls : ascii -> bool) (a b : string) :
  Regexp.every cls (a ++ b) = Regexp.every cls a && Regexp.every cls b.
Proof.
  induction a as [|c a IH]; cbn [String.append Regexp.every];
    [reflexivity | now rewrite IH, andb_assoc].
Qed.

Lemma splitFrom_no_newline (data pending part : string) :
  Regexp.every Regexp.dot pending = true ->
  In part (splitFrom GoStrings.newline data pending) ->
  Regexp.every Regexp.dot part = true.
Proof.
  revert pending. induction data as [|c data IH]; intros pending Hp Hin;
    cbn [splitFrom] in Hin.
  - destruct Hin as [<- | []]. exact Hp.
  - destruct (Ascii.eqb c GoStrings.newline) eqn:E.
    + destruct Hin as [<- | Hin]; [exact Hp | now apply (IH "")].
    + apply (IH (pending ++ String c "")); [| exact Hin].
      rewrite every_append, Hp. cbn [Regexp.every andb].
      rewrite newline_dot, E. reflexivity.
Qed.

(** The first part holds the pending bytes. *)
Lemma splitFrom_first (sep : ascii) (data pending : string) :
  exists part,
    In part (splitFrom sep data pending)
    /\ String.length pending <= String.length part.
Proof.
  revert pending. induction data as [|c data IH]; intros pending;
    cbn [splitFrom].
  - exists pending. split; [now left | lia].
  - destruct (Ascii.eqb c sep).
    + exists pending. split; [now left | lia].
    + destruct (IH (pending ++ String c "")) as (part & Hin & Hlen).
      exists part. split; [exact Hin |].
      rewrite length_append in Hlen. lia.
Qed.

Lemma scanLines_None (data pending : string) :
  String.length pending < MaxScanTokenSize ->
  scanLines data pending = None <->
  exists part,
    In part (splitFrom GoStrings.newline data pending)
    /\ MaxScanTokenSize <= String.length part.
Proof.
  revert pending. induction data as [|c data IH]; intros pending Hlen;
    cbn [scanLines splitFrom].
  - split; [discriminate |]. intros (part & [<- | []] & H). lia.
  - destruct (Ascii.eqb c GoStrings.newline).
    + specialize (IH "" MaxScanTokenSize_pos).
      destruct (scanLines data "") as [tokens|].
      * split; [discriminate |].
        intros (part & [<- | Hin] & H); [lia |].
        assert (F : Some tokens = None)
          by (apply IH; exists part; split; assumption).
        discriminate F.
      * split; [| reflexivity]. intros _.
        destruct IH as [IH _]. destruct (IH eq_refl) as (part & Hin & H).
        exists part. split; [now right | exact H].
    + destruct (Nat.leb_spec MaxScanTokenSize (String.length pending + 1))
        as [Hbig|Hsmall].
      * split; [| reflexivity]. intros _.
        destruct (splitFrom_first GoStrings.newline data
                    (pending ++ String c "")) as (part & Hin & Hp).
        exists part. split; [exact Hin |].
        rewrite length_append in Hp. cbn [String.length] in Hp. lia.
      * apply IH. rewrite length_append. cbn [String.length]. lia.
Qed.

(** *** Trimming *)

Lemma skip_append (p s : string) : skip (String.length p) (p ++ s) = s.
Proof.
  induction p as [|c p IH]; cbn [String.length String.append skip];
    [now destruct s | exact IH].
Qed.

Lemma after_Some (prefixes : list string) (s rest : string) :
  after prefixes s = Some rest ->
  exists p, In p prefixes /\ s = p ++ rest.
Proof.
  induction prefixes as [|p ps IH]; cbn [after]; [discriminate |].
  destruct (GoStrings.HasPrefix s p) eqn:E.
  - intros [= <-]. apply HasPrefix_inv in E as [r ->].
    exists p. split; [now left | now rewrite skip_append].
  - intros H. destruct (IH H) as (p' & Hin & Hs).
    exists p'. split; [now right | exact Hs].
Qed.

Lemma after_None (prefixes : list string) (s : string) :
  after prefixes s = None <->
  forall p x, In p prefixes -> s <> p ++ x.
Proof.
  induction prefixes as [|p ps IH]; cbn [after].
  - split; [intros _ p x [] | reflexivity].
  - destruct (GoStrings.HasPrefix s p) eqn:E.
    + split; [discriminate |]. intros H.
      apply HasPrefix_inv in E as [r Hr].
      now contradiction (H p r (or_introl eq_refl)).
    + rewrite IH. split.
      * intros H p' x [<- | Hin]; [| now apply H].
        intros ->. now rewrite HasPrefix_append in E.
      * intros H p' x Hin. apply H. now right.
Qed.

Lemma trimPrefixes_spec (prefixes : list string) (fuel : nat) (s : string) :
  (forall p, In p prefixes -> p <> "") ->
  String.length s <= fuel ->
  (exists a, s = a ++ trimPrefixes prefixes fuel s)
  /\ after prefixes (trimPrefixes prefixes fuel s) = None.
Proof.
  intros Hne. revert s. induction fuel as [|fuel IH]; intros s Hlen;
    cbn [trimPrefixes].
  - destruct s; [| cbn [String.length] in Hlen; lia].
    split; [now exists "" |].
    apply after_None. intros p x Hin Hs.
    destruct p; [now apply (Hne "") | discriminate].
  - destruct (after prefixes s) as [rest|] eqn:E.
    + destruct (after_Some _ _ _ E) as (p & Hin & ->).
      assert (Hp : String.length p <> 0)
        by (destruct p; [now contradiction (Hne "" Hin) | discriminate]).
      rewrite length_append in Hlen.
      destruct (IH rest ltac:(lia)) as [[a Ha] Hnone].
      split; [| exact Hnone].
      exists (p ++ a). rewrite append_assoc. now rewrite <- Ha.
    + split; [now exists "" | exact E].
Qed.

Lemma trimPrefixes_fixed (prefixes : list string) (fuel : nat) (s : string) :
  after prefixes s = None -> trimPrefixes prefixes fuel s = s.
Proof.
  intros H. destruct fuel; cbn [trimPrefixes]; [reflexivity | now rewrite H].
Qed.

Lemma reverse_append (a b : string) :
  reverse (a ++ b) = reverse b ++ reverse a.
Proof.
  induction a as [|c a IH]; cbn [String.append reverse].
  - now rewrite append_empty_r.
  - now rewrite IH, append_assoc.
Qed.

Lemma reverse_involutive (s : string) : reverse (reverse s) = s.
Proof.
  induction s as [|c s IH]; cbn [reverse]; [reflexivity |].
  rewrite reverse_append, IH. reflexivity.
Qed.

Lemma length_reverse (s : string) :
  String.length (reverse s) = String.length s.
Proof.
  induction s as [|c s IH]; cbn [reverse String.length]; [reflexivity |].
  rewrite length_append, IH. cbn [String.length]. lia.
Qed.

Lemma whiteSpace_not_empty (p : string) : In p whiteSpace -> p <> "".
Proof.
  unfold whiteSpace. cbn [map bytes]. intros Hp.
  repeat (destruct Hp as [<- | Hp]; [discriminate |]). contradiction.
Qed.

Lemma reversed_whiteSpace_not_empty (p : string) :
  In p (map reverse whiteSpace) -> p <> "".
Proof.
  intros Hp. apply in_map_iff in Hp as (q & <- & Hq).
  apply whiteSpace_not_empty in Hq.
  intros E. apply Hq. rewrite <- (reverse_involutive q), E. reflexivity.
Qed.

(** [s] neither starts nor ends with the encoding of a white-space
    character. *)
Lemma TrimSpace_spec (s : string) :
  (exists a b, s = a ++ TrimSpace s ++ b)
  /\ forall p x, In p whiteSpace ->
                 TrimSpace s <> p ++ x /\ TrimSpace s <> x ++ p.
Proof.
  unfold TrimSpace, TrimRight, TrimLeft.
  destruct (trimPrefixes_spec whiteSpace (String.length s) s
              whiteSpace_not_empty (Nat.le_refl _)) as [[a Ha] Hleft].
  set (t := trimPrefixes whiteSpace (String.length s) s) in *.
  destruct (trimPrefixes_spec (map reverse whiteSpace) (String.length t)
              (reverse t) reversed_whiteSpace_not_empty)
    as [[b Hb] Hright]; [now rewrite length_reverse |].
  set (u := trimPrefixes (map reverse whiteSpace) (String.length t)
              (reverse t)) in *.
  assert (Ht : t = reverse u ++ reverse b).
  { rewrite <- (reverse_involutive t), Hb. apply reverse_append. }
  split.
  - exists a, (reverse b). now rewrite <- Ht.
  - intros p x Hp. split.
    + intros E. rewrite after_None in Hleft.
      apply (Hleft p (x ++ reverse b) Hp).
      rewrite Ht, E. now rewrite append_assoc.
    + intros E. rewrite after_None in Hright.
      apply (Hright (reverse p) (reverse x)).
      * now apply in_map.
      * rewrite <- reverse_append, <- E. now rewrite reverse_involutive.
Qed.

Lemma TrimSpace_fixed (s : string) :
  (forall p x, In p whiteSpace -> s <> p ++ x /\ s <> x ++ p) ->
  TrimSpace s = s.
Proof.
  intros H. unfold TrimSpace, TrimRight, TrimLeft.
  rewrite (trimPrefixes_fixed whiteSpace _ s).
  - rewrite trimPrefixes_fixed; [apply reverse_involutive |].
    apply after_None. intros p x Hp E.
    apply in_map_iff in Hp as (q & <- & Hq).
    apply (proj2 (H q (reverse x) Hq)).
    rewrite <- (reverse_involutive s), E, reverse_append.
    now rewrite reverse_involutive.
  - apply after_None. intros p x Hp. exact (proj1 (H p x Hp)).
Qed.

Lemma dropCR_spec (d : string) :
  dropCR d = d \/ d = dropCR d ++ String carriageReturn "".
Proof.
  induction d as [|c d IH]; cbn [dropCR]; [now left |].
  destruct d as [|c' d'].
  - destruct (Ascii.eqb_spec c carriageReturn) as [-> | _];
      [now right | now left].
  - destruct IH as [IH | IH]; [left | right].
    + now rewrite IH.
    + cbn [String.append]. now rewrite <- IH.
Qed.

Lemma trimmed_dropCR (d : string) : TrimSpace d = d -> dropCR d = d.
Proof.
  intros Hd. destruct (dropCR_spec d) as [H | H]; [exact H | exfalso].
  destruct (TrimSpace_spec d) as [_ Hws].
  apply (proj2 (Hws (String carriageReturn "") (dropCR d)
                  ltac:(unfold whiteSpace; cbn; tauto))).
  now rewrite Hd.
Qed.

End FileFacts.

(** X17: what the first variant saves, it reads back.  When the file can
    be created and no write fails, [saveSubdomainsToFile] returns without
    an error and leaves a file from which [readSubdomainsFromFile] returns
    the saved list itself, provided no element holds a line feed, ends
    with a carriage return, or is 64 KiB or more long. *)
Theorem saved_list_is_read_back :
  forall (subdomains : list string) (fails : nat -> bool),
    (forall i, fails i = false) ->
    (forall d, In d subdomains ->
               Regexp.every Regexp.dot d = true
               /\ Files.dropCR d = d
               /\ String.length d < Files.MaxScanTokenSize) ->
    snd (Files.V1.saveSubdomainsToFile true fails subdomains) = true
    /\ Files.V1.readSubdomainsFromFile
         (fst (Files.V1.saveSubdomainsToFile true fails subdomains))
       = Some subdomains.
Proof.
  intros subdomains fails Hok Hclean.
  unfold Files.V1.saveSubdomainsToFile.
  rewrite (writeLines_all fails 0 subdomains "" Hok).
  cbn [fst snd String.append Files.V1.readSubdomainsFromFile].
  split; [reflexivity | now apply scanLines_unlines].
Qed.

Lemma saved_list_is_read_back_witness :
  snd (Files.V1.saveSubdomainsToFile true (fun _ => false) Fixtures.twoHosts)
  = true
  /\ Files.V1.readSubdomainsFromFile
       (fst (Files.V1.saveSubdomainsToFile true (fun _ => false)
               Fixtures.twoHosts))
     = Some Fixtures.twoHosts.
Proof.
  apply (saved_list_is_read_back Fixtures.twoHosts (fun _ => false)).
  - reflexivity.
  - intros d [<- | [<- | []]];
      (split; [reflexivity | split; [reflexivity |]]);
      unfold Files.MaxScanTokenSize; cbn [String.length]; lia.
Defined.

(** X18: the reader of the first variant fails on a file that it can open
    exactly when some line of the file, without its line feed, is 64 KiB
    or more long ([bufio.Scanner] gives up with a token that is too long);
    [main] then stops before any candidate is scanned. *)
Theorem first_reader_fails_exactly_on_a_long_line :
  forall content : string,
    Files.V1.readSubdomainsFromFile (Some content) = None <->
    exists part,
      In part (Files.Split content GoStrings.newline)
      /\ Files.MaxScanTokenSize <= String.length part.
Proof.
  intros content. unfold Files.V1.readSubdomainsFromFile, Files.Split.
  apply scanLines_None. exact MaxScanTokenSize_pos.
Qed.

(** X19: the reader of the second variant returns one candidate more
    than the file has line feeds, so never an empty list: an empty file
    gives one (empty) candidate, and the line feed that ends the last line
    of a file adds an empty candidate after it. *)
Theorem second_reader_counts_line_feeds :
  forall content : string,
    exists candidates,
      Files.V2.readSubdomainsFromFile (Some content) = Some candidates
      /\ List.length candidates
         = S (List.length
                (filter (Ascii.eqb GoStrings.newline)
                   (list_ascii_of_string content))).
Proof.
  intros content. eexists. split; [reflexivity |].
  rewrite length_map. apply splitFrom_length.
Qed.

(** X20: no candidate that the reader of the second variant returns
    holds a line feed, and none starts or ends with a white-space
    character (in the sense of [unicode.IsSpace], in UTF-8). *)
Theorem second_reader_trims_candidates :
  forall content : string,
    exists candidates,
      Files.V2.readSubdomainsFromFile (Some content) = Some candidates
      /\ forall d, In d candidates ->
           Regexp.every Regexp.dot d = true
           /\ forall p x, In p Files.whiteSpace ->
                          d <> p ++ x /\ d <> x ++ p.
Proof.
  intros content. eexists. split; [reflexivity |].
  intros d Hd. apply in_map_iff in Hd as (part & <- & Hpart).
  destruct (TrimSpace_spec part) as [(a & b & Hab) Hws].
  split; [| exact Hws].
  apply (splitFrom_no_newline content "" part eq_refl) in Hpart.
  rewrite Hab, !every_append in Hpart.
  apply andb_prop in Hpart as [_ Hpart].
  now apply andb_prop in Hpart as [Hpart _].
Qed.

(** X21: the two readers differ on the same file.  On a file of lines
    that each end with a line feed, hold no white space at either end and
    are shorter than 64 KiB, the reader of the first variant returns the
    lines, and the reader of the second variant returns the lines and one
    more, empty, candidate. *)
Theorem readers_differ_on_final_line_feed :
  forall lines : list string,
    (forall d, In d lines ->
               Regexp.every Regexp.dot d = true
               /\ Files.TrimSpace d = d
               /\ String.length d < Files.MaxScanTokenSize) ->
    Files.V1.readSubdomainsFromFile (Some (Files.unlines lines)) = Some lines
    /\ Files.V2.readSubdomainsFromFile (Some (Files.unlines lines))
       = Some (lines ++ [""])%list.
Proof.
  intros lines H. split.
  - cbn [Files.V1.readSubdomainsFromFile]. apply scanLines_unlines.
    intros d Hd. destruct (H d Hd) as (Hdot & Htrim & Hlen).
    repeat split; try assumption. now apply trimmed_dropCR.
  - cbn [Files.V2.readSubdomainsFromFile].
    rewrite Split_unlines by (intros d Hd; now apply H).
    rewrite map_app. cbn [map].
    replace (Files.TrimSpace "") with "" by reflexivity.
    rewrite (map_ext_in Files.TrimSpace (fun d => d));
      [now rewrite map_id |].
    intros d Hd. now apply H.
Qed.

Lemma readers_differ_on_final_line_feed_witness :
  Files.V1.readSubdomainsFromFile (Some (Files.unlines Fixtures.twoHosts))
  = Some Fixtures.twoHosts
  /\ Files.V2.readSubdomainsFromFile (Some (Files.unlines Fixtures.twoHosts))
     = Some (Fixtures.twoHosts ++ [""])%list.
Proof.
  apply (readers_differ_on_final_line_feed Fixtures.twoHosts).
  intros d [<- | [<- | []]];
    (split; [reflexivity | split; [vm_compute; reflexivity |]]);
    unfold Files.MaxScanTokenSize; cbn [String.length]; lia.
Defined.
